(** * BullMQ: the script wrappers of the queue ([src/classes/scripts.ts],
    [src/utils.ts]) and the producer facade ([Queue])

    The TypeScript sources are embedded as executable Rocq functions.

    - JavaScript numbers are integer valued throughout the code under study
      (millisecond timestamps, counters, result codes); they are modelled by
      [Z].  The runtime computes in double precision, which is exact on
      integers of magnitude below 2^53 and rounds beyond; a statement about
      the result of an addition or a multiplication carries the bound that
      keeps it in the exact range.  The 32-bit conversion performed by the
      bitwise operators is written out ([ToInt32]).
    - A string is a sequence of code units below 256.
    - Objects used as string-keyed maps are [gmap string _].
    - An [async] wrapper invokes a script of the store and continues with
      its reply.  It is a term of [call]: the script's name, the argument
      array, and the continuation that decodes the reply into the wrapper's
      [outcome] (a returned value or a thrown one).
    - What the environment supplies is an argument: [Date.now()] is [now],
      [v4()] is [v4].
    - The Lua scripts are not among the sources.  Where a statement needs
      what a script does to the store, the script is written from the
      specification (module [Lua]). *)

From Stdlib Require Import ZArith String Ascii List Bool Lia.
From stdpp Require Import base option list strings gmap pretty.

Local Open Scope string_scope.
Local Open Scope list_scope.
Local Open Scope Z_scope.

(** ** JavaScript values and the runtime operations the sources rely on *)

Module JS.

(** An [Error] object, identified by its message. [TypeError] is the error
    the runtime raises when a property of [undefined] is read. *)
Inductive Error : Type :=
| MkError (message : string)
| TypeError.

(** Values that travel through the wrappers. *)
#[local] Set Warnings "-register-all".
Inductive value : Type :=
| JUndefined
| JNull
| JBool (b : bool)
| JNum (z : Z)
| JStr (s : string)
| JObj (fields : list (string * value))
| JErr (e : Error).
#[local] Set Warnings "register-all".

(** An element of the array handed to a script: a value, or the text
    [JSON.stringify(v)], whose serialisation is kept symbolic. *)
Inductive scriptArg : Type :=
| Arg (v : value)
| ArgJSON (v : value).

(** Result of running a function body: [return v] or [throw v]. *)
Inductive outcome (A : Type) : Type :=
| Return (a : A)
| Throw (e : value).
Arguments Return {A} a.
Arguments Throw {A} e.

Definition throws {A} (o : outcome A) : bool :=
  match o with Throw _ => true | Return _ => false end.

(** Truthiness ([ToBoolean]). *)
Definition truthy (v : value) : bool :=
  match v with
  | JUndefined | JNull => false
  | JBool b => b
  | JNum z => negb (z =? 0)
  | JStr s => negb (String.eqb s "")
  | JObj _ | JErr _ => true
  end.

Definition of_option {A} (inj : A -> value) (o : option A) : value :=
  match o with Some a => inj a | None => JUndefined end.

(** [x ?? d] *)
Definition nullish {A} (o : option A) (d : A) : A :=
  match o with Some a => a | None => d end.

(** Template-literal / string concatenation conversion ([ToString]). *)
Definition ToString (v : value) : string :=
  match v with
  | JUndefined => "undefined"
  | JNull => "null"
  | JBool true => "true"
  | JBool false => "false"
  | JNum z => pretty z
  | JStr s => s
  | JObj _ => "[object Object]"
  | JErr (MkError m) => "Error: " +:+ m
  | JErr TypeError => "TypeError"
  end.

(** *** Unary plus on a string ([ToNumber])

    Job ids are decimal counters or user supplied strings.  The decimal
    fragment is modelled: an optional sign followed by digits is the
    integer it denotes (exactly so below 2^53), the empty string is [0],
    anything else is [NaN] ([None]).  The runtime also reads white space
    around a literal, fractions, exponents, [Infinity] and the [0x], [0o]
    and [0b] literals, and rounds an integer of 2^53 or more; a statement
    that depends on the number an id denotes is made for the ids on which
    this fragment is the runtime's conversion ([numericId] below). *)
Definition digit_of (c : ascii) : option Z :=
  let n := Z.of_nat (nat_of_ascii c) in
  if (48 <=? n) && (n <=? 57) then Some (n - 48) else None.

Fixpoint digits_value (s : string) (acc : Z) : option Z :=
  match s with
  | EmptyString => Some acc
  | String c rest =>
      match digit_of c with
      | Some d => digits_value rest (10 * acc + d)
      | None => None
      end
  end.

Definition ToNumber (s : string) : option Z :=
  match s with
  | EmptyString => Some 0
  | String "-"%char (String _ _ as rest) => option_map Z.opp (digits_value rest 0)
  | String "+"%char (String _ _ as rest) => digits_value rest 0
  | _ => digits_value s 0
  end.

(** [ToInt32]: what a bitwise operator does to its operand; [NaN] is [0],
    an integer is reduced modulo 2^32 into the signed range. *)
Definition ToInt32 (n : option Z) : Z :=
  match n with
  | None => 0
  | Some z =>
      let m := z mod 2 ^ 32 in
      if m <? 2 ^ 31 then m else m - 2 ^ 32
  end.

(** [a & b] *)
Definition bitand (a b : option Z) : Z := Z.land (ToInt32 a) (ToInt32 b).

End JS.

Import JS.

(** ** [src/utils.ts] *)

Module Utils.

(** [obj[key] = v] on an object created by [{}], where [v] is a string or
    [undefined].  The map holds the own properties.  The name [__proto__]
    is an accessor inherited from [Object.prototype]: assigning a value
    that is neither an object nor [null] to it is ignored and creates no
    own property. *)
Definition assign (obj : gmap string (option string)) (key : string)
    (v : option string) : gmap string (option string) :=
  if String.eqb key "__proto__" then obj else <[key := v]> obj.

(** [array2obj]: the loop index advances by two; [arr[i + 1]] past the end
    of an odd-length array reads [undefined] ([None]). *)
Fixpoint array2obj_from (arr : list string) (obj : gmap string (option string))
  : gmap string (option string) :=
  match arr with
  | [] => obj
  | [k] => assign obj k None
  | k :: v :: rest => array2obj_from rest (assign obj k (Some v))
  end.

Definition array2obj (arr : list string) : gmap string (option string) :=
  array2obj_from arr ∅.

(** [getParentKey]: no [return] is reached when [opts] is absent. *)
Definition getParentKey (opts : option (string * string)) : option string :=
  match opts with
  | Some (id, queue) => Some (queue +:+ ":" +:+ id)
  | None => None
  end.

(** [isEmpty]: the loop over the keys returns [false] at the first own
    key and [true] when there is none. *)
Definition isEmpty {V} (obj : gmap string V) : bool :=
  match map_to_list obj with
  | [] => true
  | _ :: _ => false
  end.

End Utils.

(** ** [src/classes/scripts.ts] *)

Module Scripts.

Import Utils.

(** *** The objects the wrappers read *)

Record RateLimiterOptions : Type := {
  max : Z;
  duration : Z;
  groupKey : option string;
}.

Record WorkerOptions : Type := {
  lockDuration : option Z;
  limiter : option RateLimiterOptions;
}.

(** [MinimalQueue]. [keys n] is [queue.keys[n]]; [closing] tells whether
    [queue.closing] is set (the promise created by [close()]). *)
Record MinimalQueue : Type := {
  name : string;
  toKey : string -> string;
  keys : string -> string;
  opts : WorkerOptions;
  closing : bool;
}.

Record ParentRef : Type := {
  parent_id : string;
  parent_queue : string;
}.

(** [JobsOptions]; [repeat] holds the repeat options, of which the code
    under study only tests the presence. *)
Record JobsOptions : Type := {
  jobId : option string;
  priority : option Z;
  delay : option Z;
  lifo : option bool;
  parent : option ParentRef;
  repeat : option value;
}.

(** [JobJson]: the serialised job handed to [addJob]. *)
Record JobJson : Type := {
  json_name : string;
  json_data : string;
  json_opts : string;
  json_timestamp : Z;
}.

Record Job : Type := {
  id : string;
  job_opts : option JobsOptions;
}.

Record ParentOpts : Type := {
  waitChildrenKey : value;
  parentDependenciesKey : value;
  parentKey : value;
}.

Record MoveToChildrenOpts : Type := {
  timestamp : option Z;
  child : option ParentRef;
}.

(** What a script invocation resolves to: an integer, [null], or the
    pair [[fields, jobId]] of a fetched job. *)
Inductive reply : Type :=
| RInt (z : Z)
| RNil
| RJob (fields : list string) (jobId : string).

(** [[JobJsonRaw, string] | []] *)
Inductive jobData : Type :=
| NoJob
| JobData (job : gmap string (option string)) (jobId : string).

Definition str (s : string) : scriptArg := Arg (JStr s).
Definition num (z : Z) : scriptArg := Arg (JNum z).
Definition optnum (o : option Z) : scriptArg := Arg (of_option JNum o).

Definition is_true (o : option bool) : bool := nullish o false.

(** Truthiness of an optional object. *)
Definition defined {A} (o : option A) : bool :=
  match o with Some _ => true | None => false end.

(** *** Script invocations and emitted events

    [Eval s args k]: [await client.s(args)], then [k] on the reply.
    [Emit e k]: [this.emit(e, ...)], then [k]. *)
Inductive call (A : Type) : Type :=
| Ret (o : outcome A)
| Eval (script : string) (args : list scriptArg) (k : reply -> call A)
| Emit (event : string) (k : call A).
Arguments Ret {A} o.
Arguments Eval {A} script args k.
Arguments Emit {A} event k.

(** [await c] followed by [f] on its value; a thrown value propagates. *)
Fixpoint bind {A B} (c : call A) (f : A -> call B) : call B :=
  match c with
  | Ret (Return a) => f a
  | Ret (Throw e) => Ret (Throw e)
  | Eval s args k => Eval s args (fun r => bind (k r) f)
  | Emit e k => Emit e (bind k f)
  end.

(** What an observer of the connection and of the emitter sees. *)
Inductive action : Type :=
| Invoked (script : string) (args : list scriptArg)
| Emitted (event : string).

(** Running a wrapper against the replies the store gives, in order.  The
    result lists the actions performed; the outcome is [None] while the
    wrapper is still awaiting a reply. *)
Fixpoint run {A} (c : call A) (replies : list reply)
  : list action * option (outcome A) :=
  match c with
  | Ret o => ([], Some o)
  | Eval s args k =>
      match replies with
      | [] => ([Invoked s args], None)
      | r :: rest =>
          let '(t, o) := run (k r) rest in (Invoked s args :: t, o)
      end
  | Emit e k =>
      let '(t, o) := run k replies in (Emitted e :: t, o)
  end.

(** Running a wrapper against a store whose scripts are given by
    [client]. *)
Fixpoint exec {A S} (client : string -> list scriptArg -> S -> S * reply)
    (c : call A) (st : S) : S * outcome A :=
  match c with
  | Ret o => (st, o)
  | Eval s args k =>
      let '(st', r) := client s args st in exec client (k r) st'
  | Emit _ k => exec client k st
  end.

(** *** addJob *)

Definition defaultParentOpts : ParentOpts :=
  {| waitChildrenKey := JNull;
     parentDependenciesKey := JNull;
     parentKey := JNull |}.

Definition addJob (queue : MinimalQueue) (job : JobJson) (opts : JobsOptions)
    (jobId : option string) (parentOpts : option ParentOpts) : call reply :=
  let parentOpts := nullish parentOpts defaultParentOpts in
  let queueKeys := keys queue in
  let keys :=
    [ queueKeys "wait"; queueKeys "paused"; queueKeys "meta"; queueKeys "id";
      queueKeys "delayed"; queueKeys "priority"; queueKeys "events";
      queueKeys "delay" ] in
  let args :=
    [ str (queueKeys "");
      str (match jobId with Some j => j | None => "" end);
      str (json_name job);
      str (json_data job);
      str (json_opts job);
      num (json_timestamp job);
      optnum (delay opts);
      num (if truthy (of_option JNum (delay opts))
           then json_timestamp job + nullish (delay opts) 0
           else 0);
      num (if truthy (of_option JNum (priority opts))
           then nullish (priority opts) 0
           else 0);
      str (if is_true (lifo opts) then "RPUSH" else "LPUSH");
      Arg (parentKey parentOpts);
      Arg (waitChildrenKey parentOpts);
      Arg (parentDependenciesKey parentOpts) ] in
  let keys := map str keys ++ args in
  Eval "addJob" keys (fun result => Ret (Return result)).

(** *** pause *)

Definition pause (queue : MinimalQueue) (pause : bool) : call reply :=
  let src := if negb pause then "paused" else "wait" in
  let dst := if negb pause then "wait" else "paused" in
  let keys := map (toKey queue) [src; dst; "meta"] ++ [keys queue "events"] in
  Eval "pause" (map str (keys ++ [if pause then "paused" else "resumed"]))
    (fun result => Ret (Return result)).

(** *** moveToFinished *)

Definition moveToFinishedArgs (queue : MinimalQueue) (job : Job) (val : value)
    (propVal : string) (shouldRemove : bool + Z) (target : string)
    (token : string) (fetchNext : option bool) (now : Z) : list scriptArg :=
  let fetchNext := nullish fetchNext true in
  let queueKeys := keys queue in
  let opts := opts queue in
  let keys :=
    [ queueKeys "active"; queueKeys target; toKey queue (id job);
      queueKeys "wait"; queueKeys "priority"; queueKeys "events";
      queueKeys "meta"; queueKeys "stalled" ] in
  let remove :=
    match shouldRemove with
    | inl b => if b then "1" else "0"
    | inr n => pretty (n + 1)
    end in
  let parent := job_opts job ≫= parent in
  let args :=
    [ str (id job);
      num now;
      str propVal;
      Arg (match val with JUndefined => JStr "null" | _ => val end);
      str target;
      str remove;
      ArgJSON (JObj [("jobId", JStr (id job)); ("val", val)]);
      num (if negb fetchNext || closing queue || defined (limiter opts)
           then 0 else 1);
      str (queueKeys "");
      str token;
      optnum (lockDuration opts);
      Arg (of_option JStr (parent_id <$> parent));
      Arg (of_option JStr (parent_queue <$> parent)) ] in
  map str keys ++ args.

Definition finishedErrors (code : Z) (jobId command state : string) : value :=
  match code with
  | -1 => JErr (MkError ("Missing key for job " +:+ jobId +:+ ". " +:+ command))
  | -2 => JErr (MkError ("Missing lock for job " +:+ jobId +:+ ". " +:+ command))
  | -3 => JErr (MkError ("Job " +:+ jobId +:+ " is not in the " +:+ state
                         +:+ " state. " +:+ command))
  | -4 => JErr (MkError ("Job " +:+ jobId +:+ " has pending dependencies. "
                         +:+ command))
  | _ => JUndefined
  end.

(** [raw2jobData].  [if (raw)] is the truthiness of the reply; on a
    non-zero number [raw[0]] is [undefined] and reading its [length]
    raises. *)
Definition raw2jobData (raw : reply) : outcome jobData :=
  match raw with
  | RNil => Return NoJob
  | RInt z => if z =? 0 then Return NoJob else Throw (JErr TypeError)
  | RJob jobData jobId =>
      if negb (length jobData =? 0)%nat
      then Return (JobData (array2obj jobData) jobId)
      else Return NoJob
  end.

(** [result < 0] and [if (result)] on a reply: an array converts to [NaN]
    in a comparison and is truthy, [null] converts to [0] and is falsy. *)
Definition negative (result : reply) : option Z :=
  match result with
  | RInt z => if z <? 0 then Some z else None
  | RNil | RJob _ _ => None
  end.

Definition reply_truthy (result : reply) : bool :=
  match result with
  | RInt z => negb (z =? 0)
  | RNil => false
  | RJob _ _ => true
  end.

(** [moveToFinished]; [Return None] is the implicit [undefined]. *)
Definition moveToFinished (queue : MinimalQueue) (job : Job) (val : value)
    (propVal : string) (shouldRemove : bool + Z) (target : string)
    (token : string) (fetchNext : bool) (now : Z) : call (option jobData) :=
  let args := moveToFinishedArgs queue job val propVal shouldRemove target
                token (Some fetchNext) now in
  Eval "moveToFinished" args (fun result =>
    match negative result with
    | Some code => Ret (Throw (finishedErrors code (id job) "finished" "active"))
    | None =>
        if reply_truthy result
        then match raw2jobData result with
             | Return d => Ret (Return (Some d))
             | Throw e => Ret (Throw e)
             end
        else Ret (Return None)
    end).

(** *** changeDelay, moveToDelayed, moveToWaitingChildren

    The three argument builders bake the low twelve bits of the job id
    into the timestamp, guarded by [timestamp > 0].  The sum is written on
    integers; it is the sum the runtime computes as long as it stays below
    2^53, that is for timestamps below 2^41. *)

Definition changeDelayArgs (queue : MinimalQueue) (jobId : string)
    (timestamp : Z) : list scriptArg :=
  let timestamp := Z.max 0 timestamp in
  let timestamp :=
    if 0 <? timestamp
    then timestamp * 0x1000 + bitand (ToNumber jobId) (Some 0xfff)
    else timestamp in
  let keys :=
    map (toKey queue) ["delayed"; jobId]
      ++ [keys queue "events"; keys queue "delay"] in
  map str keys ++ [ArgJSON (JNum timestamp); str jobId].

Definition changeDelay (queue : MinimalQueue) (jobId : string) (delay : Z)
  : call unit :=
  let args := changeDelayArgs queue jobId delay in
  Eval "changeDelay" args (fun result =>
    match negative result with
    | Some code => Ret (Throw (finishedErrors code jobId "changeDelay" "delayed"))
    | None => Ret (Return tt)
    end).

Definition moveToDelayedArgs (queue : MinimalQueue) (jobId : string)
    (timestamp : option Z) : list scriptArg :=
  let timestamp := Z.max 0 (nullish timestamp 0) in
  let timestamp :=
    if 0 <? timestamp
    then timestamp * 0x1000 + bitand (ToNumber jobId) (Some 0xfff)
    else timestamp in
  let keys :=
    map (toKey queue) ["active"; "delayed"; jobId]
      ++ [keys queue "events"; keys queue "delay"] in
  map str keys ++ [ArgJSON (JNum timestamp); str jobId].

Definition moveToWaitingChildrenArgs (queue : MinimalQueue) (jobId : string)
    (token : string) (opts : MoveToChildrenOpts) : list scriptArg :=
  let timestamp := Z.max 0 (nullish (timestamp opts) 0) in
  let childKey :=
    getParentKey ((fun c => (parent_id c, parent_queue c)) <$> child opts) in
  let timestamp :=
    if 0 <? timestamp
    then timestamp * 0x1000 + bitand (ToNumber jobId) (Some 0xfff)
    else timestamp in
  let keys :=
    map (toKey queue) [jobId +:+ ":lock"; "active"; "waiting-children"; jobId] in
  map str keys ++
    [str token; str (nullish childKey ""); ArgJSON (JNum timestamp); str jobId].

Definition moveToDelayed (queue : MinimalQueue) (jobId : string)
    (timestamp : option Z) : call unit :=
  let args := moveToDelayedArgs queue jobId timestamp in
  Eval "moveToDelayed" args (fun result =>
    match negative result with
    | Some code => Ret (Throw (finishedErrors code jobId "moveToDelayed" "active"))
    | None => Ret (Return tt)
    end).

(** [moveToWaitingChildren]: the [switch] compares the reply with [0] and
    [1]; every other reply reaches [default], where the value of
    [finishedErrors] is returned. *)
Definition moveToWaitingChildren (queue : MinimalQueue) (jobId : string)
    (token : string) (opts : option MoveToChildrenOpts) : call value :=
  let opts := nullish opts {| timestamp := None; child := None |} in
  let args := moveToWaitingChildrenArgs queue jobId token opts in
  Eval "moveToWaitingChildren" args (fun result =>
    match result with
    | RInt 0 => Ret (Return (JBool true))
    | RInt 1 => Ret (Return (JBool false))
    | RInt code =>
        Ret (Return (finishedErrors code jobId "moveToWaitingChildren" "active"))
    | RNil | RJob _ _ => Ret (Return JUndefined)
    end).

(** *** reprocessJob *)

Inductive finishedState : Type := failed | completed.

Definition state_name (state : finishedState) : string :=
  match state with failed => "failed" | completed => "completed" end.

(** [job.opts.lifo] dereferences [job.opts]. *)
Definition reprocessJob (queue : MinimalQueue) (job : Job)
    (state : finishedState) : call reply :=
  let keys :=
    [ toKey queue (id job); keys queue "events";
      toKey queue (state_name state); toKey queue "wait" ] in
  match job_opts job with
  | None => Ret (Throw (JErr TypeError))
  | Some jopts =>
      let args :=
        [ str (id job); str ((if is_true (lifo jopts) then "R" else "L") +:+ "PUSH") ] in
      Eval "reprocessJob" (map str keys ++ args) (fun result => Ret (Return result))
  end.

(** *** moveToActive *)

(** [[number, undefined]] or the decoded job. *)
Inductive activeResult : Type :=
| RateLimited (delayUntil : Z)
| Fetched (data : jobData).

Definition moveToActive (worker : MinimalQueue) (token : string)
    (jobId : option string) (now : Z) : call activeResult :=
  let opts := opts worker in
  let queueKeys := keys worker in
  let keys :=
    [ queueKeys "wait"; queueKeys "active"; queueKeys "priority";
      queueKeys "events"; queueKeys "stalled"; queueKeys "limiter";
      queueKeys "delayed"; queueKeys "delay" ] in
  let args :=
    [ str (queueKeys ""); str token; optnum (lockDuration opts); num now;
      Arg (of_option JStr jobId) ] in
  let args :=
    match limiter opts with
    | Some l =>
        args ++ [num (max l); num (duration l)]
             ++ (if truthy (of_option JStr (groupKey l)) then [Arg (JBool true)] else [])
    | None => args
    end in
  Eval "moveToActive" (map str keys ++ args) (fun result =>
    match result with
    | RInt n => Ret (Return (RateLimited n))
    | RNil | RJob _ _ =>
        match raw2jobData result with
        | Return d => Ret (Return (Fetched d))
        | Throw e => Ret (Throw e)
        end
    end).

(** *** obliterate *)

Record ObliterateOpts : Type := {
  force : bool;
  count : Z;
}.

Definition obliterate (queue : MinimalQueue) (opts : ObliterateOpts)
  : call reply :=
  let keys := [keys queue "meta"; toKey queue ""] in
  let args := [num (count opts); Arg (if force opts then JStr "force" else JNull)] in
  Eval "obliterate" (map str keys ++ args) (fun result =>
    match negative result with
    | Some (-1) => Ret (Throw (JErr (MkError "Cannot obliterate non-paused queue")))
    | Some (-2) => Ret (Throw (JErr (MkError "Cannot obliterate queue with active jobs")))
    | _ => Ret (Return result)
    end).

(** *** extendLock, moveToCompleted, moveToFailedArgs, retryJobArgs *)

Definition extendLock (queue : MinimalQueue) (jobId token : string)
    (duration : Z) : call reply :=
  let args :=
    [ str (toKey queue jobId +:+ ":lock"); str (keys queue "stalled");
      str token; num duration; str jobId ] in
  Eval "extendLock" args (fun result => Ret (Return result)).

Definition moveToCompleted (queue : MinimalQueue) (job : Job)
    (returnvalue : value) (removeOnComplete : bool + Z) (token : string)
    (fetchNext : bool) (now : Z) : call (option jobData) :=
  moveToFinished queue job returnvalue "returnvalue" removeOnComplete
    "completed" token fetchNext now.

(** [fetchNext = false] is the default of [moveToFailedArgs]. *)
Definition moveToFailedArgs (queue : MinimalQueue) (job : Job)
    (failedReason : string) (removeOnFailed : bool + Z) (token : string)
    (fetchNext : option bool) (now : Z) : list scriptArg :=
  let fetchNext := nullish fetchNext false in
  moveToFinishedArgs queue job (JStr failedReason) "failedReason"
    removeOnFailed "failed" token (Some fetchNext) now.

(** [retryJobArgs]; [job.opts.lifo] dereferences [job.opts]. *)
Definition retryJobArgs (queue : MinimalQueue) (job : Job)
  : outcome (list scriptArg) :=
  let jobId := id job in
  let keys :=
    map (toKey queue) ["active"; "wait"; jobId] ++ [keys queue "events"] in
  match job_opts job with
  | None => Throw (JErr TypeError)
  | Some jopts =>
      let pushCmd := (if is_true (lifo jopts) then "R" else "L") +:+ "PUSH" in
      Return (map str keys ++ [str pushCmd; str jobId])
  end.

End Scripts.

(** ** The [lodash] helpers used by [Queue] *)

Module Lodash.

(** [object[key]] on a plain object. *)
Fixpoint prop (fields : list (string * value)) (key : string) : value :=
  match fields with
  | [] => JUndefined
  | (k, v) :: rest => if String.eqb k key then v else prop rest key
  end.

(** [key in object] *)
Definition has (fields : list (string * value)) (key : string) : bool :=
  existsb (fun kv => String.eqb (fst kv) key) fields.

(** Splitting a dotted path into its keys: a leading, a trailing and a
    doubled dot each give an empty key.  The library also reads bracket
    syntax ([a[0].b]); a path with a bracket is outside the fragment
    ([bracket_free] below). *)
Fixpoint stringToPath_from (path : string) (acc : string) : list string :=
  match path with
  | EmptyString => [acc]
  | String c rest =>
      if Ascii.eqb c "."%char
      then acc :: stringToPath_from rest ""
      else stringToPath_from rest (acc +:+ String c EmptyString)
  end.

Definition stringToPath (path : string) : list string :=
  stringToPath_from path "".

(** The descent through the own fields of plain objects.  The library
    reads [object[key]] on every value other than [null] and [undefined],
    so it also finds the members an object inherits and the properties of
    a primitive (the length of a string); these are outside the fragment,
    and a statement that depends on the path resolving to [undefined]
    carries the condition that the descent meets none of them
    ([own_descent] below). *)
Fixpoint baseGet (object : value) (path : list string) : value :=
  match path with
  | [] => object
  | key :: rest =>
      match object with
      | JObj fields => baseGet (prop fields key) rest
      | _ => JUndefined
      end
  end.

(** [get(object, path)] over plain objects: a path that is itself a key
    of the object is used as that key, otherwise it is split at the dots;
    an [undefined] path is the key ["undefined"]. *)
Definition get (object : value) (path : option string) : value :=
  match object with
  | JObj fields =>
      match path with
      | None => prop fields "undefined"
      | Some p =>
          if has fields p then prop fields p
          else baseGet object (stringToPath p)
      end
  | _ => JUndefined
  end.

Definition isUndefined (v : value) : bool :=
  match v with JUndefined => true | _ => false end.

End Lodash.

(** ** The commands of the store that [Queue] issues directly

    A keyspace maps a key to one typed value.  [LRANGE key 0 -1] reads a
    whole list, an absent key being the empty list and a key of another
    type an error reply; [DEL] removes keys of any type and replies with
    the number of keys it removed; [HEXISTS] tests a field of a hash. *)

Module Redis.

Inductive entry : Type :=
| EList (elements : list string)
| ESet (members : list string)
| EZSet (members : list (Z * string))
| EHash (fields : gmap string string)
| EString (s : string).

(** [None] is the error reply, whose result slot reads [undefined]. *)
Definition lrange (db : gmap string entry) (key : string)
  : option (list string) :=
  match db !! key with
  | None => Some []
  | Some (EList l) => Some l
  | Some _ => None
  end.

Fixpoint del (keys : list string) (db : gmap string entry)
  : gmap string entry * Z :=
  match keys with
  | [] => (db, 0)
  | k :: rest =>
      let '(db', n) := del rest (delete k db) in
      (db', (if bool_decide (is_Some (db !! k)) then 1 else 0) + n)
  end.

Definition hexists (db : gmap string entry) (key field : string)
  : option Z :=
  match db !! key with
  | None => Some 0
  | Some (EHash h) => Some (if bool_decide (is_Some (h !! field)) then 1 else 0)
  | Some _ => None
  end.

Definition wrongType : value :=
  JErr (MkError "WRONGTYPE Operation against a key holding the wrong kind of value").

(** What [exec()] resolves to for a transaction of [DEL] commands: one
    pair [[null, n]] of error and result per command. *)
Definition execResult : Type := list (value * Z).

End Redis.

(** ** The [Queue] class *)

Module Queue.

Import Scripts.

Record Limiter : Type := {
  limiter_groupKey : option string;
}.

Record Queue : Type := {
  base : MinimalQueue;
  jobsOpts : option JobsOptions;
  limiter : option Limiter;
}.

(** [jobIdForGroup]; [v4] is the identifier [v4()] yields when it is
    called. *)
Definition jobIdForGroup (this : Queue) (opts : option JobsOptions)
    (data : value) (v4 : string) : option string :=
  let jobId := opts ≫= jobId in
  let groupKeyPath := limiter this ≫= limiter_groupKey in
  let groupKey := Lodash.get data groupKeyPath in
  if truthy (of_option JStr groupKeyPath) && negb (Lodash.isUndefined groupKey)
  then Some ((if truthy (of_option JStr jobId) then nullish jobId "" else v4)
             +:+ ":" +:+ ToString groupKey)
  else jobId.





Definition pause (this : Queue) : call unit :=
  bind (Scripts.pause (base this) true) (fun _ =>
    Emit "paused" (Ret (Return tt))).

Record ObliterateOpts : Type := {
  opt_force : option bool;
  opt_count : option Z;
}.

(** [{ force: false, count: 1000, ...opts }] *)
Definition spread_defaults (opts : option ObliterateOpts) : Scripts.ObliterateOpts :=
  {| force := nullish (opts ≫= opt_force) false;
     count := nullish (opts ≫= opt_count) 1000 |}.

(** The [do ... while (cursor)] loop of [obliterate], run against the
    replies of the successive invocations of the script. *)
Fixpoint obliterate_loop (this : Queue) (opts : option ObliterateOpts)
    (replies : list reply) : list action * option (outcome unit) :=
  let body := Scripts.obliterate (base this) (spread_defaults opts) in
  match replies with
  | [] => run (bind body (fun _ => Ret (Return tt))) []
  | r :: rest =>
      match run body [r] with
      | (t, Some (Return cursor)) =>
          if reply_truthy cursor
          then let '(t', o) := obliterate_loop this opts rest in (t ++ t', o)
          else (t, Some (Return tt))
      | (t, Some (Throw e)) => (t, Some (Throw e))
      | (t, None) => (t, None)
      end
  end.

(** [obliterate]: the first reply answers the [pause] script, the
    following ones the [obliterate] script. *)
Definition obliterate (this : Queue) (opts : option ObliterateOpts)
    (replies : list reply) : list action * option (outcome unit) :=
  match replies with
  | [] => run (pause this) []
  | r :: rest =>
      match run (pause this) [r] with
      | (t, Some (Return _)) =>
          let '(t', o) := obliterate_loop this opts rest in (t ++ t', o)
      | (t, Some (Throw e)) => (t, Some (Throw e))
      | (t, None) => (t, None)
      end
  end.

(** [isPaused]: [hexists(meta, 'paused') === 1]. *)
Definition isPaused (this : Queue) (db : gmap string Redis.entry)
  : outcome bool :=
  match Redis.hexists db (keys (base this) "meta") "paused" with
  | Some pausedKeyExists => Return (pausedKeyExists =? 1)
  | None => Throw Redis.wrongType
  end.

(** [drain].  The first transaction reads [wait] and [paused] and then
    deletes the containers; the second deletes the job keys.  The result
    is the store and what the call resolves to: [None] is [undefined],
    [Some [(null, n)]] what [exec()] resolves to for the second
    transaction, [[[null, n]]] with [n] the count of its one [DEL].
    When the reply for [paused] is an error its result is [undefined] and
    [concat] raises; when the reply for [wait] is an error, [concat] appends
    [undefined], which [toKey] receives. *)
Definition drain (this : Queue) (delayed : bool) (db : gmap string Redis.entry)
  : gmap string Redis.entry * outcome (option Redis.execResult) :=
  let toKey := toKey (base this) in
  let waiting := Redis.lrange db (toKey "wait") in
  let paused := Redis.lrange db (toKey "paused") in
  let db := if delayed then delete (toKey "delayed") db else db in
  let db := delete (toKey "wait") db in
  let db := delete (toKey "paused") db in
  let db := delete (toKey "priority") db in
  match paused with
  | None => (db, Throw (JErr TypeError))
  | Some pausedJobs =>
      let waitingJobs :=
        match waiting with
        | Some w => w
        | None => [ToString JUndefined]
        end in
      let jobKeys := map toKey (pausedJobs ++ waitingJobs) in
      if negb (length jobKeys =? 0)%nat
      then let '(db, n) := Redis.del jobKeys db in
           (db, Return (Some [(JNull, n)]))
      else (db, Return None)
  end.

End Queue.

(** ** The store and the scripts the wrappers invoke

    The two scripts below are written from the specification's description
    of the transitions, over a store keyed by the key names the wrappers
    pass. *)

Module Lua.

Import Scripts.

(** Modelled from the spec: the containers of section 3, which the
    sources only name; lists by key, the members of sets and sorted sets
    by key, hashes and string values (locks) by key. *)
Record Store : Type := {
  lists : gmap string (list string);
  sets : gmap string (list string);
  hashes : gmap string (gmap string string);
  strings : gmap string string;
}.

Definition elements (st : Store) (key : string) : list string :=
  default [] (lists st !! key).

Definition members (st : Store) (key : string) : list string :=
  default [] (sets st !! key).

Definition mem (x : string) (l : list string) : bool :=
  existsb (String.eqb x) l.

Definition without (x : string) (l : list string) : list string :=
  List.filter (fun y => negb (String.eqb x y)) l.

Definition set_list (st : Store) (key : string) (l : list string) : Store :=
  {| lists := <[key := l]> (lists st); sets := sets st;
     hashes := hashes st; strings := strings st |}.

Definition set_members (st : Store) (key : string) (l : list string) : Store :=
  {| lists := lists st; sets := <[key := l]> (sets st);
     hashes := hashes st; strings := strings st |}.

(** Modelled from the spec: the push commands on a list, [LPUSH] at the
    head and [RPUSH] at the tail. *)
Definition push (cmd : string) (x : string) (l : list string) : list string :=
  if String.eqb cmd "RPUSH" then l ++ [x] else x :: l.

(** Modelled from the spec: the [moveToWaitingChildren] script, which is
    missing from the sources. "If [<id>:dependencies] is empty, returns 0
    (no-op, job keeps active). Else verifies lock+token, removes id from
    [active], adds to [waiting-children]. Returns 1."  A lock that does
    not hold the token is answered with -2 and an id that is not in
    [active] with -3, the codes of the specification's table. *)
Definition moveToWaitingChildren (lockKey activeKey waitingChildrenKey jobKey
    token jobId : string) (st : Store) : Store * Z :=
  match members st (jobKey +:+ ":dependencies") with
  | [] => (st, 0)
  | _ :: _ =>
      if negb (bool_decide (strings st !! lockKey = Some token)) then (st, -2)
      else if negb (mem jobId (elements st activeKey)) then (st, -3)
      else
        let st := set_list st activeKey (without jobId (elements st activeKey)) in
        let st := set_members st waitingChildrenKey
                    (jobId :: members st waitingChildrenKey) in
        (st, 1)
  end.

(** Modelled from the spec: the [reprocessJob] script, which is missing
    from the sources. "Moves id from [completed]/[failed] back to
    [wait]/[paused] (LPUSH or RPUSH per [lifo]). Returns 1 ok, 0 missing,
    -1 locked, -2 not in expected state."  The queue is paused iff the
    [meta] hash has a [paused] field. *)
Definition reprocessJob (metaKey pausedKey jobKey stateKey waitKey jobId
    pushCmd : string) (st : Store) : Store * Z :=
  match hashes st !! jobKey with
  | None => (st, 0)
  | Some _ =>
      if bool_decide (is_Some (strings st !! (jobKey +:+ ":lock"))) then (st, -1)
      else if negb (mem jobId (members st stateKey)) then (st, -2)
      else
        let target :=
          if bool_decide (is_Some (hashes st !! metaKey ≫= (.!! "paused")))
          then pausedKey else waitKey in
        let st := set_members st stateKey (without jobId (members st stateKey)) in
        let st := set_list st target (push pushCmd jobId (elements st target)) in
        (st, 1)
  end.

(** [KEYS] and [ARGV] arrive as one array. *)
Definition arg_string (args : list scriptArg) (i : nat) : string :=
  match args !! i with
  | Some (Arg (JStr s)) => s
  | _ => ""
  end.

(** Modelled from the spec: the script table of the store for the queue
    [queue]; each script reads its [KEYS] and [ARGV] at the positions
    where the wrapper puts them. *)
Definition client (queue : MinimalQueue) (script : string)
    (args : list scriptArg) (st : Store) : Store * reply :=
  if String.eqb script "moveToWaitingChildren" then
    let '(st', code) :=
      moveToWaitingChildren (arg_string args 0) (arg_string args 1)
        (arg_string args 2) (arg_string args 3) (arg_string args 4)
        (arg_string args 7) st in
    (st', RInt code)
  else if String.eqb script "reprocessJob" then
    let '(st', code) :=
      reprocessJob (keys queue "meta") (keys queue "paused")
        (arg_string args 0) (arg_string args 2) (arg_string args 3)
        (arg_string args 4) (arg_string args 5) st in
    (st', RInt code)
  else (st, RNil).

End Lua.

(** ** Concrete objects used to exercise the definitions *)

Module Example.

Import Scripts.

Definition key (n : string) : string := "bull:q:" +:+ n.

Definition queue : MinimalQueue :=
  {| name := "q"; toKey := key; keys := key;
     opts := {| lockDuration := Some 30000; limiter := None |};
     closing := false |}.

Definition limited : MinimalQueue :=
  {| name := "q"; toKey := key; keys := key;
     opts := {| lockDuration := Some 30000;
                limiter := Some {| max := 10; duration := 1000;
                                   groupKey := Some "customer.id" |} |};
     closing := false |}.

Definition no_opts : JobsOptions :=
  {| jobId := None; priority := None; delay := None; lifo := None;
     parent := None; repeat := None |}.

Definition lifo_opts : JobsOptions :=
  {| jobId := None; priority := Some 3; delay := None; lifo := Some true;
     parent := None; repeat := None |}.

Definition job : Job := {| id := "7"; job_opts := Some no_opts |}.

Definition lifo_job : Job := {| id := "8"; job_opts := Some lifo_opts |}.

Definition json : JobJson :=
  {| json_name := "mail"; json_data := "{}"; json_opts := "{}";
     json_timestamp := 1600000000000 |}.

Definition grouped : Queue.Queue :=
  {| Queue.base := limited; Queue.jobsOpts := None;
     Queue.limiter := Some {| Queue.limiter_groupKey := Some "customer.id" |} |}.

Definition plain : Queue.Queue :=
  {| Queue.base := queue; Queue.jobsOpts := None; Queue.limiter := None |}.

Definition payload : value :=
  JObj [("customer", JObj [("id", JNum 42); ("name", JStr "ada")])].

(** Job 7 is active under the lock ["tok"] and waits for one child. *)
Definition parent_store : Lua.Store :=
  {| Lua.lists := {[ key "active" := ["7"] ]};
     Lua.sets := {[ key "7:dependencies" := ["bull:q:9"] ]};
     Lua.hashes := {[ key "7" := ∅ ]};
     Lua.strings := {[ key "7:lock" := "tok" ]} |}.

(** Job 7 is active, locked, and has no pending child. *)
Definition childless_store : Lua.Store :=
  {| Lua.lists := {[ key "active" := ["7"] ]};
     Lua.sets := ∅;
     Lua.hashes := {[ key "7" := ∅ ]};
     Lua.strings := {[ key "7:lock" := "tok" ]} |}.

(** Jobs 7 and 8 have failed; job 3 is waiting. *)
Definition failed_store : Lua.Store :=
  {| Lua.lists := {[ key "wait" := ["3"] ]};
     Lua.sets := {[ key "failed" := ["7"; "8"] ]};
     Lua.hashes := {[ key "7" := ∅; key "8" := ∅; key "3" := ∅ ]};
     Lua.strings := ∅ |}.

End Example.

(** ** Notions used in the statements *)

(** The flat array [[k1, v1, k2, v2, ...]] of a list of fields. *)
Definition flat_fields (pairs : list (string * string)) : list string :=
  flat_map (fun kv => [fst kv; snd kv]) pairs.

(** The object with the fields [pairs], a later field overriding an earlier
    one of the same name. *)
Definition object_of (pairs : list (string * string)) : gmap string (option string) :=
  list_to_map (rev (map (fun kv => (fst kv, Some (snd kv))) pairs)).

(** The outcome [o] of a wrapper carries the value [v], whether the
    wrapper returns it or throws it. *)
Definition carries (o : option (JS.outcome JS.value)) (v : JS.value) : Prop :=
  o = Some (JS.Return v) \/ o = Some (JS.Throw v).

(** A cursor after which the loop of [Queue.obliterate] goes on: the
    wrapper returns it and it is truthy. *)
Definition keeps_looping (cursor : Scripts.reply) : bool :=
  match cursor with
  | Scripts.RInt z => negb (z =? 0) && negb (z =? -1) && negb (z =? -2)
  | Scripts.RNil => false
  | Scripts.RJob _ _ => true
  end.

(** The character [c] occurs in [s]. *)
Fixpoint occurs (c : ascii) (s : string) : bool :=
  match s with
  | EmptyString => false
  | String c' rest => Ascii.eqb c c' || occurs c rest
  end.

(** A script argument that is a key under the prefix [p]. *)
Definition under (p : string) (a : JS.scriptArg) : Prop :=
  exists n, a = JS.Arg (JS.JStr (p +:+ n)).

(** The fields of [pairs] whose name an object created by [{}] takes as an
    own property: every name but [__proto__]. *)
Definition own_fields (pairs : list (string * string)) : list (string * string) :=
  List.filter (fun kv => negb (String.eqb (fst kv) "__proto__")) pairs.

(** The names of a flat array: its elements at the even positions. *)
Fixpoint names (arr : list string) : list string :=
  match arr with
  | [] => []
  | [k] => [k]
  | k :: _ :: rest => k :: names rest
  end.

(** A character that may occur in a numeric literal of the runtime or in
    the white space around it: a digit, a sign, the dot, a letter of a
    hexadecimal, octal or binary literal, of an exponent or of [Infinity],
    a white space character; a code unit outside ASCII counts as one
    too. *)
Definition literal_char (c : ascii) : bool :=
  let n := Z.of_nat (nat_of_ascii c) in
  ((48 <=? n) && (n <=? 57))
  || ((9 <=? n) && (n <=? 13)) || (n =? 32) || (128 <=? n)
  || occurs c "+-.abcdefABCDEFxXoOInity".

(** The id holds a character that no numeric literal holds: unary plus
    yields [NaN] on it. *)
Fixpoint foreign (s : string) : bool :=
  match s with
  | EmptyString => false
  | String c rest => negb (literal_char c) || foreign rest
  end.

(** [numericId jobId n]: [+jobId] is [n], for the ids on which
    [JS.ToNumber] is the conversion of the runtime: an optionally signed
    decimal integer of magnitude below 2^53 (or the empty id) denotes that
    integer, and an id that holds a character foreign to numbers is [NaN]
    ([None]). *)
Inductive numericId (jobId : string) : option Z -> Prop :=
| id_integer (n : Z) :
    JS.ToNumber jobId = Some n -> Z.abs n < 2 ^ 53 -> numericId jobId (Some n)
| id_not_a_number :
    foreign jobId = true -> numericId jobId None.

(** A path without bracket syntax. *)
Definition bracket_free (p : string) : bool :=
  negb (occurs "[" p) && negb (occurs "]" p).

(** The names of the members every object inherits. *)
Definition inherited (key : string) : bool :=
  existsb (String.eqb key)
    [ "constructor"; "hasOwnProperty"; "isPrototypeOf"; "propertyIsEnumerable";
      "toLocaleString"; "toString"; "valueOf"; "__proto__";
      "__defineGetter__"; "__defineSetter__"; "__lookupGetter__";
      "__lookupSetter__" ].

(** The descent along [path] only reads own fields of plain objects: it
    ends at [null] or [undefined], or at a name that the object neither
    holds nor inherits, and never asks a primitive for a property. *)
Fixpoint own_descent (object : JS.value) (path : list string) : bool :=
  match path with
  | [] => true
  | key :: rest =>
      match object with
      | JS.JObj fields =>
          if Lodash.has fields key
          then own_descent (Lodash.prop fields key) rest
          else negb (inherited key)
      | JS.JUndefined | JS.JNull => true
      | _ => false
      end
  end.


(** On a path that this holds of, [Lodash.get] is the library's [get]. *)
Definition resolves_plainly (data : JS.value) (p : string) : bool :=
  bracket_free p
  && (match data with
      | JS.JObj fields => Lodash.has fields p
      | _ => false
      end
      || own_descent data (Lodash.stringToPath p)).

(** The keys [Queue.drain] deletes, given the waiting and the paused ids. *)
Definition drained_keys (toKey : string -> string) (delayed : bool)
    (waiting paused : list string) : list string :=
  (if delayed then [toKey "delayed"] else [])
    ++ [toKey "wait"; toKey "paused"; toKey "priority"]
    ++ map toKey (paused ++ waiting).

(** * Properties *)

Import Scripts.

(** ** Auxiliary facts *)

(** Running a wrapper that makes one invocation. *)
Lemma run_Eval_Ret {A} (s : string) (args : list scriptArg)
    (k : reply -> call A) (r : reply) (o : outcome A) :
  k r = Ret o -> run (Eval s args k) [r] = ([Invoked s args], Some o).
Proof. intros Hk. simpl. rewrite Hk. reflexivity. Qed.

(** [n & 0xfff] keeps the low twelve bits of an integer [n]. *)
Lemma bitand_low12 (n : Z) : bitand (Some n) (Some 0xfff) = n mod 4096.
Proof.
  unfold bitand.
  replace (ToInt32 (Some 0xfff)) with (Z.ones 12) by reflexivity.
  rewrite Z.land_ones by lia.
  change (2 ^ 12) with 4096.
  unfold ToInt32; cbv zeta.
  assert (Hd : (4096 | 2 ^ 32)) by (exists 1048576; reflexivity).
  destruct (n mod 2 ^ 32 <? 2 ^ 31).
  - apply Z.mod_mod_divide; exact Hd.
  - replace (n mod 2 ^ 32 - 2 ^ 32)
      with (n mod 2 ^ 32 + (-1048576) * 4096) by reflexivity.
    rewrite Z.mod_add by lia.
    apply Z.mod_mod_divide; exact Hd.
Qed.

(** An id that does not denote a number contributes no bits. *)
Lemma bitand_NaN (m : option Z) : bitand None m = 0.
Proof. reflexivity. Qed.

Lemma bitand_low12_range (n : option Z) : 0 <= bitand n (Some 0xfff) < 4096.
Proof.
  destruct n as [n|].
  - rewrite bitand_low12. apply Z.mod_pos_bound. lia.
  - rewrite bitand_NaN. lia.
Qed.

Lemma ToNumber_unfold (c : ascii) (rest : string) :
  ToNumber (String c rest)
  = match rest with
    | EmptyString => digits_value (String c rest) 0
    | String _ _ =>
        if Ascii.eqb c "-" then option_map Z.opp (digits_value rest 0)
        else if Ascii.eqb c "+" then digits_value rest 0
        else digits_value (String c rest) 0
    end.
Proof.
  destruct rest as [| c' rest];
    destruct c as [[] [] [] [] [] [] [] []]; reflexivity.
Qed.

Lemma digit_is_literal (c : ascii) (d : Z) :
  digit_of c = Some d -> literal_char c = true.
Proof.
  unfold digit_of, literal_char. cbv zeta.
  destruct ((48 <=? Z.of_nat (nat_of_ascii c)) && (Z.of_nat (nat_of_ascii c) <=? 57));
    [reflexivity | discriminate].
Qed.

Lemma digits_value_foreign (s : string) (acc : Z) :
  foreign s = true -> digits_value s acc = None.
Proof.
  revert acc. induction s as [| c s IH]; intros acc Hs; [discriminate Hs |].
  cbn [foreign] in Hs. cbn [digits_value].
  destruct (digit_of c) as [d |] eqn:Hd; [| reflexivity].
  apply IH. rewrite (digit_is_literal c d Hd) in Hs. exact Hs.
Qed.

(** An id that holds a character foreign to numbers does not denote one. *)
Lemma ToNumber_foreign (s : string) : foreign s = true -> ToNumber s = None.
Proof.
  destruct s as [| c rest]; [discriminate |]. intros Hs.
  rewrite ToNumber_unfold.
  destruct rest as [| c' rest'].
  - apply digits_value_foreign. exact Hs.
  - destruct (Ascii.eqb_spec c "-") as [-> | _].
    { rewrite digits_value_foreign; [reflexivity | exact Hs]. }
    destruct (Ascii.eqb_spec c "+") as [-> | _].
    { apply digits_value_foreign. exact Hs. }
    apply digits_value_foreign. exact Hs.
Qed.

Lemma numericId_ToNumber (jobId : string) (n : option Z) :
  numericId jobId n -> ToNumber jobId = n.
Proof.
  intros [m Hm _ | Hforeign]; [exact Hm | apply ToNumber_foreign; exact Hforeign].
Qed.

(** The runtime operations on concrete inputs. *)
Example ToNumber_examples :
  ToNumber "4101" = Some 4101 /\ ToNumber "-1" = Some (-1) /\
  ToNumber "" = Some 0 /\ ToNumber "abc" = None /\ ToNumber "-" = None.
Proof. repeat split. Qed.

Example bitand_examples :
  bitand (Some 4101) (Some 0xfff) = 5 /\
  bitand (Some (-1)) (Some 0xfff) = 4095 /\
  bitand (Some (2 ^ 32 + 7)) (Some 0xfff) = 7 /\
  bitand (ToNumber "custom-id") (Some 0xfff) = 0.
Proof. repeat split. Qed.

Example moveToDelayedArgs_example :
  moveToDelayedArgs Example.queue "4101" (Some 7)
    = [Arg (JStr "bull:q:active"); Arg (JStr "bull:q:delayed");
       Arg (JStr "bull:q:4101"); Arg (JStr "bull:q:events");
       Arg (JStr "bull:q:delay"); ArgJSON (JNum 28677); Arg (JStr "4101")].
Proof. reflexivity. Qed.

Example array2obj_examples :
  Utils.array2obj ["name"; "mail"; "data"; "{}"] !! "name" = Some (Some "mail") /\
  Utils.array2obj ["name"; "mail"; "data"; "{}"] !! "data" = Some (Some "{}") /\
  Utils.array2obj ["name"; "mail"; "data"; "{}"] !! "opts" = None /\
  Utils.array2obj ["k"; "old"; "k"; "new"] !! "k" = Some (Some "new") /\
  Utils.array2obj ["k"; "v"; "dangling"] !! "dangling" = Some None.
Proof. repeat split. Qed.

Example get_examples :
  Lodash.stringToPath "customer.id" = ["customer"; "id"] /\
  Lodash.get Example.payload (Some "customer.name") = JStr "ada" /\
  Lodash.get Example.payload (Some "customer.age") = JUndefined /\
  Lodash.get Example.payload (Some "customer.id.digits") = JUndefined /\
  Lodash.get (JObj [("a.b", JNum 1); ("a", JObj [("b", JNum 2)])]) (Some "a.b")
    = JNum 1.
Proof. repeat split. Qed.

Lemma finishedErrors_outside_table (code : Z) (jobId command state : string) :
  code <> -1 -> code <> -2 -> code <> -3 -> code <> -4 ->
  finishedErrors code jobId command state = JUndefined.
Proof.
  intros H1 H2 H3 H4.
  destruct code as [|p|p]; try reflexivity.
  destruct p as [[p|p|]|[p|[p|p|]|]|]; try reflexivity; congruence.
Qed.

Lemma negative_RInt (code : Z) : code < 0 -> negative (RInt code) = Some code.
Proof. intros H. unfold negative. destruct (Z.ltb_spec code 0); [reflexivity | lia]. Qed.

Lemma negative_RInt_nonneg (code : Z) : 0 <= code -> negative (RInt code) = None.
Proof. intros H. unfold negative. destruct (Z.ltb_spec code 0); [lia | reflexivity]. Qed.

(** ** The composite score of a delayed entry *)


Lemma delayed_score_args (queue : MinimalQueue) (jobId token : string)
    (ts : Z) (child : option ParentRef) :
  let score :=
    if 0 <? ts
    then Z.max 0 ts * 4096 + bitand (ToNumber jobId) (Some 0xFFF)
    else 0 in
  moveToDelayedArgs queue jobId (Some ts) !! 5%nat = Some (ArgJSON (JNum score)) /\
  changeDelayArgs queue jobId ts !! 4%nat = Some (ArgJSON (JNum score)) /\
  moveToWaitingChildrenArgs queue jobId token
    {| timestamp := Some ts; child := child |} !! 6%nat
    = Some (ArgJSON (JNum score)).
Proof.
  cbv zeta.
  unfold moveToDelayedArgs, changeDelayArgs, moveToWaitingChildrenArgs; simpl.
  destruct (Z.ltb_spec 0 ts) as [Hpos | Hneg].
  - rewrite Z.max_r by lia.
    destruct (Z.ltb_spec 0 ts); [| lia].
    repeat split.
  - rewrite Z.max_l by lia. repeat split.
Qed.



(** For a decimal id the tiebreaker is the id modulo 4096. *)
Lemma delayed_score_numeric_id (queue : MinimalQueue) (jobId : string)
    (n ts : Z) :
  numericId jobId (Some n) -> 0 < ts < 2 ^ 41 ->
  moveToDelayedArgs queue jobId (Some ts) !! 5%nat
    = Some (ArgJSON (JNum (ts * 4096 + n mod 4096))).
Proof.
  intros Hid Hts.
  destruct (delayed_score_args queue jobId "" ts None) as (-> & _).
  destruct (Z.ltb_spec 0 ts); [| lia].
  rewrite Z.max_r by lia.
  rewrite (numericId_ToNumber jobId (Some n) Hid), bitand_low12. reflexivity.
Qed.

(** The wrappers send exactly these argument arrays. *)
Lemma delayed_wrappers_send_args (queue : MinimalQueue) (jobId token : string)
    (ts : option Z) (delay : Z) (opts : MoveToChildrenOpts) :
  fst (run (moveToDelayed queue jobId ts) [])
    = [Invoked "moveToDelayed" (moveToDelayedArgs queue jobId ts)] /\
  fst (run (changeDelay queue jobId delay) [])
    = [Invoked "changeDelay" (changeDelayArgs queue jobId delay)] /\
  fst (run (moveToWaitingChildren queue jobId token (Some opts)) [])
    = [Invoked "moveToWaitingChildren"
         (moveToWaitingChildrenArgs queue jobId token opts)].
Proof. repeat split. Qed.

(** ** Result codes of [moveToFinished] *)

(** C2, at the reply 1: the reply is not negative, yet the wrapper throws,
    because raw2jobData reads [length] of [raw[0]], which is undefined. *)
Lemma moveToFinished_positive_reply_counterexample :
  negative (RInt 1) = None /\
  snd (run (moveToFinished Example.queue Example.job (JStr "done") "returnvalue"
              (inl false) "completed" "tok" true 1600000000000) [RInt 1])
    = Some (Throw (JErr TypeError)).
Proof. split; reflexivity. Qed.

Section MoveToFinished.

Variables (queue : MinimalQueue) (job : Job) (val : value) (propVal : string).
Variables (shouldRemove : bool + Z) (target token : string).
Variables (fetchNext : bool) (now : Z).

(** The wrapper's outcome when the script replies [r]. *)
Local Abbreviation result_of r :=
  (snd (run (moveToFinished queue job val propVal shouldRemove target token
               fetchNext now) [r])).

Lemma moveToFinished_negative (code : Z) :
  code < 0 ->
  result_of (RInt code)
    = Some (Throw (finishedErrors code (id job) "finished" "active")).
Proof.
  intros Hneg. unfold moveToFinished. cbn [run].
  rewrite (negative_RInt code Hneg). reflexivity.
Qed.

(** The wrapper throws exactly on the numeric replies other than 0. *)
Lemma moveToFinished_throws_iff (r : reply) :
  (exists e, result_of r = Some (Throw e)) <-> (exists z, r = RInt z /\ z <> 0).
Proof.
  split.
  - intros [e He]. destruct r as [z | | fields jobId].
    + exists z. split; [reflexivity |]. intros ->. discriminate He.
    + discriminate He.
    + unfold moveToFinished in He. simpl in He.
      destruct (length fields =? 0)%nat; discriminate He.
  - intros (z & -> & Hz). destruct (Z.ltb_spec z 0) as [Hneg | Hpos].
    + eexists. apply moveToFinished_negative. exact Hneg.
    + exists (JErr TypeError). unfold moveToFinished. cbn [run].
      rewrite (negative_RInt_nonneg z Hpos). simpl.
      destruct (Z.eqb_spec z 0); [contradiction | reflexivity].
Qed.

(** C2, amended: for the negative result codes of the moveToFinished script
    the wrapper throws an error whose message matches the code: -1 missing
    job key, -2 missing lock, -3 job not in the active state, -4 pending
    dependencies, and every negative code makes it throw; for the result 0,
    for a nil result and for a fetched job [[fields, id]] it does not
    throw. *)
Theorem moveToFinished_result_codes :
  result_of (RInt (-1))
    = Some (Throw (JErr (MkError ("Missing key for job " +:+ id job +:+ ". finished")))) /\
  result_of (RInt (-2))
    = Some (Throw (JErr (MkError ("Missing lock for job " +:+ id job +:+ ". finished")))) /\
  result_of (RInt (-3))
    = Some (Throw (JErr (MkError ("Job " +:+ id job
                                   +:+ " is not in the active state. finished")))) /\
  result_of (RInt (-4))
    = Some (Throw (JErr (MkError ("Job " +:+ id job
                                   +:+ " has pending dependencies. finished")))) /\
  (forall code, code < 0 ->
     result_of (RInt code)
       = Some (Throw (finishedErrors code (id job) "finished" "active"))) /\
  result_of (RInt 0) = Some (Return None) /\
  result_of RNil = Some (Return None) /\
  (forall fields jobId,
     result_of (RJob fields jobId)
       = Some (Return (Some (if (length fields =? 0)%nat then NoJob
                             else JobData (Utils.array2obj fields) jobId)))).
Proof.
  repeat split; try reflexivity.
  - exact moveToFinished_negative.
  - intros fields jobId. unfold moveToFinished. simpl.
    destruct (length fields =? 0)%nat; reflexivity.
Qed.

(** C4: the flag passed to the moveToFinished script (argument 8 of ARGV,
    position 15 of the array) is 1 if and only if fetchNext is true, the
    queue is not closing and no rate limiter is configured; otherwise it
    is 0. *)
Theorem moveToFinished_fetchNext_flag :
  exists (args : list scriptArg) (flag : Z),
    fst (run (moveToFinished queue job val propVal shouldRemove target token
                fetchNext now) []) = [Invoked "moveToFinished" args] /\
    args !! 15%nat = Some (Arg (JNum flag)) /\
    (flag = 1 <->
       fetchNext = true /\ closing queue = false /\ limiter (opts queue) = None) /\
    (flag <> 1 -> flag = 0).
Proof.
  eexists. eexists. split; [reflexivity |].
  split; [reflexivity |].
  destruct fetchNext, (closing queue), (limiter (opts queue)); simpl;
    (split; [split; [intros H; try discriminate H; repeat split
                    | intros (H1 & H2 & H3); try discriminate; reflexivity]
            | intros H; try reflexivity; contradiction H; reflexivity]).
Qed.

End MoveToFinished.

Lemma moveToFinished_result_codes_witness :
  -7 < 0 /\
  snd (run (moveToFinished Example.queue Example.job (JStr "done") "returnvalue"
              (inl false) "completed" "tok" true 1600000000000) [RInt (-7)])
    = Some (Throw (finishedErrors (-7) (id Example.job) "finished" "active")).
Proof.
  split; [lia |].
  apply (moveToFinished_result_codes Example.queue Example.job (JStr "done")
           "returnvalue" (inl false) "completed" "tok" true 1600000000000).
  lia.
Defined.

(** With no limiter and no close in progress the next job is requested; a
    limiter switches the request off. *)
Lemma moveToFinished_fetchNext_flag_examples :
  moveToFinishedArgs Example.queue Example.job (JStr "done") "returnvalue"
    (inr 99) "completed" "tok" (Some true) 1600000000000 !! 15%nat
    = Some (Arg (JNum 1)) /\
  moveToFinishedArgs Example.limited Example.job (JStr "done") "returnvalue"
    (inr 99) "completed" "tok" (Some true) 1600000000000 !! 15%nat
    = Some (Arg (JNum 0)) /\
  moveToFinishedArgs Example.queue Example.job (JStr "done") "returnvalue"
    (inr 99) "completed" "tok" (Some false) 1600000000000 !! 15%nat
    = Some (Arg (JNum 0)).
Proof. repeat split. Qed.

(** ** Unknown negative codes *)

(** C10: for every negative result code outside -1, -2, -3, -4,
    finishedErrors produces no Error value (it returns undefined), so
    moveToFinished, moveToDelayed and changeDelay throw undefined. *)
Theorem unknown_negative_code_throws_undefined (queue : MinimalQueue) (job : Job)
    (val : value) (propVal : string) (shouldRemove : bool + Z)
    (target token jobId command state : string) (fetchNext : bool) (now : Z)
    (ts : option Z) (delay code : Z) :
  code < 0 -> code <> -1 -> code <> -2 -> code <> -3 -> code <> -4 ->
  finishedErrors code jobId command state = JUndefined /\
  snd (run (moveToFinished queue job val propVal shouldRemove target token
              fetchNext now) [RInt code]) = Some (Throw JUndefined) /\
  snd (run (moveToDelayed queue jobId ts) [RInt code]) = Some (Throw JUndefined) /\
  snd (run (changeDelay queue jobId delay) [RInt code]) = Some (Throw JUndefined).
Proof.
  intros Hneg H1 H2 H3 H4.
  split; [apply finishedErrors_outside_table; assumption |].
  unfold moveToFinished, moveToDelayed, changeDelay; cbn [run].
  rewrite (negative_RInt code Hneg).
  rewrite !finishedErrors_outside_table by assumption.
  repeat split.
Qed.

Lemma unknown_negative_code_throws_undefined_witness :
  finishedErrors (-5) "7" "finished" "active" = JUndefined /\
  snd (run (moveToFinished Example.queue Example.job (JStr "done") "returnvalue"
              (inl false) "completed" "tok" true 1600000000000) [RInt (-5)])
    = Some (Throw JUndefined) /\
  snd (run (moveToDelayed Example.queue "7" (Some 1600000000000)) [RInt (-5)])
    = Some (Throw JUndefined) /\
  snd (run (changeDelay Example.queue "7" 5000) [RInt (-5)]) = Some (Throw JUndefined).
Proof.
  apply (unknown_negative_code_throws_undefined Example.queue Example.job
           (JStr "done") "returnvalue" (inl false) "completed" "tok" "7"
           "finished" "active" true 1600000000000 (Some 1600000000000) 5000 (-5));
    lia.
Defined.

(** ** Decoding the reply of [moveToActive] *)

Lemma object_of_cons (k v : string) (pairs : list (string * string)) :
  object_of ((k, v) :: pairs) = object_of pairs ∪ {[ k := Some v ]}.
Proof.
  unfold object_of. simpl. rewrite list_to_map_app. simpl.
  by rewrite insert_empty.
Qed.

Lemma object_of_absent (k : string) (pairs : list (string * string)) :
  ~ In k (map fst pairs) -> object_of pairs !! k = None.
Proof.
  induction pairs as [| [k0 v0] pairs IH]; intros Hk.
  - reflexivity.
  - rewrite object_of_cons. apply lookup_union_None. split.
    + apply IH. intros Hin. apply Hk. right. exact Hin.
    + apply lookup_singleton_ne. intros ->. apply Hk. left. reflexivity.
Qed.

(** When no field name occurs twice, each name is bound to its value. *)
Lemma object_of_lookup (pairs : list (string * string)) (k v : string) :
  List.NoDup (map fst pairs) -> In (k, v) pairs ->
  object_of pairs !! k = Some (Some v).
Proof.
  induction pairs as [| [k0 v0] pairs IH]; intros Hnd Hin.
  - destruct Hin.
  - rewrite object_of_cons. inversion Hnd as [| ? ? Hk0 Hnd']; subst.
    destruct Hin as [Heq | Hin].
    + inversion Heq; subst.
      rewrite lookup_union_r by (apply object_of_absent; exact Hk0).
      apply lookup_singleton_eq.
    + apply lookup_union_Some_l. apply IH; assumption.
Qed.

Lemma own_fields_cons (k v : string) (pairs : list (string * string)) :
  own_fields ((k, v) :: pairs)
  = if String.eqb k "__proto__" then own_fields pairs
    else (k, v) :: own_fields pairs.
Proof. unfold own_fields. simpl. destruct (String.eqb k "__proto__"); reflexivity. Qed.

(** [__proto__] is no field of [own_fields], every other field is. *)
Lemma own_fields_In (pairs : list (string * string)) (k v : string) :
  In (k, v) (own_fields pairs) <-> In (k, v) pairs /\ k <> "__proto__".
Proof.
  unfold own_fields. rewrite filter_In. simpl.
  destruct (String.eqb_spec k "__proto__") as [-> | Hne]; simpl; split;
    intros [H1 H2]; try discriminate; try congruence; auto.
Qed.

Lemma own_fields_names (pairs : list (string * string)) (k : string) :
  In k (map fst (own_fields pairs)) <-> In k (map fst pairs) /\ k <> "__proto__".
Proof.
  rewrite !in_map_iff. split.
  - intros ([k0 v] & <- & Hin). apply own_fields_In in Hin as [Hin Hne].
    split; [exists (k0, v); auto | exact Hne].
  - intros [([k0 v] & <- & Hin) Hne]. exists (k0, v). split; [reflexivity |].
    apply own_fields_In. auto.
Qed.

Lemma array2obj_from_pairs (pairs : list (string * string))
    (obj : gmap string (option string)) :
  Utils.array2obj_from (flat_fields pairs) obj = object_of (own_fields pairs) ∪ obj.
Proof.
  revert obj. induction pairs as [| [k v] pairs IH]; intros obj.
  - unfold object_of. simpl. by rewrite (left_id_L ∅ (∪)).
  - change (flat_fields ((k, v) :: pairs)) with (k :: v :: flat_fields pairs).
    cbn [Utils.array2obj_from]. rewrite IH, own_fields_cons. unfold Utils.assign.
    destruct (String.eqb k "__proto__"); [reflexivity |].
    rewrite object_of_cons, insert_union_singleton_l.
    by rewrite (assoc_L (∪)).
Qed.

(** [array2obj] pairs each field name other than [__proto__] with the
    element that follows it. *)
Lemma array2obj_pairs (pairs : list (string * string)) :
  Utils.array2obj (flat_fields pairs) = object_of (own_fields pairs).
Proof.
  unfold Utils.array2obj. rewrite array2obj_from_pairs.
  by rewrite (right_id_L ∅ (∪)).
Qed.

(** C5: a numeric reply of the moveToActive script is returned as the pair
    (delay, undefined); any other reply is decoded by raw2jobData: a reply
    [[fields, id]] with a non-empty flat field array becomes the pair of
    the object array2obj builds from it and the id, which for a flat array
    of fields is the object that binds each field name to the element
    following it (a field named __proto__ excepted, which an assignment
    does not create); an empty field array (or a nil reply) decodes to the
    empty result. *)
Theorem moveToActive_decodes_reply (worker : MinimalQueue) (token : string)
    (jobId : option string) (now : Z) :
  let result_of r := snd (run (moveToActive worker token jobId now) [r]) in
  (forall n, result_of (RInt n) = Some (Return (RateLimited n))) /\
  (forall f fields id,
     result_of (RJob (f :: fields) id)
       = Some (Return (Fetched (JobData (Utils.array2obj (f :: fields)) id)))) /\
  (forall k v pairs id,
     result_of (RJob (flat_fields ((k, v) :: pairs)) id)
       = Some (Return (Fetched (JobData (object_of (own_fields ((k, v) :: pairs))) id)))) /\
  (forall id, result_of (RJob [] id) = Some (Return (Fetched NoJob))) /\
  result_of RNil = Some (Return (Fetched NoJob)).
Proof.
  cbv zeta. repeat split; try reflexivity.
  intros k v pairs id.
  rewrite <- array2obj_pairs. reflexivity.
Qed.

(** ** The push command and the priority of [addJob] *)

Lemma priority_or_zero (p : option Z) :
  (if truthy (of_option JNum p) then nullish p 0 else 0) = nullish p 0.
Proof.
  destruct p as [p|]; simpl; [| reflexivity].
  destruct (Z.eqb_spec p 0); simpl; congruence.
Qed.

(** C7: for a job added without delay and without a parent wait-children
    key, addJob passes a zero delayed timestamp and no wait-children key,
    the push command LPUSH when opts.lifo is false or absent and RPUSH when
    it is true, and the priority opts.priority, or 0 when it is absent. *)
Theorem addJob_push_command (queue : MinimalQueue) (job : JobJson)
    (opts : JobsOptions) (jobId : option string) (parentOpts : option ParentOpts) :
  truthy (of_option JNum (delay opts)) = false ->
  (forall given, parentOpts = Some given -> truthy (waitChildrenKey given) = false) ->
  exists args key,
    fst (run (addJob queue job opts jobId parentOpts) []) = [Invoked "addJob" args] /\
    args !! 15%nat = Some (Arg (JNum 0)) /\
    args !! 19%nat = Some (Arg key) /\ truthy key = false /\
    args !! 17%nat
      = Some (Arg (JStr (match lifo opts with
                         | Some true => "RPUSH"
                         | Some false | None => "LPUSH"
                         end))) /\
    args !! 16%nat
      = Some (Arg (JNum (match priority opts with Some p => p | None => 0 end))).
Proof.
  intros Hdelay Hparent.
  eexists. eexists. split; [reflexivity |]. simpl.
  rewrite Hdelay, priority_or_zero.
  split; [reflexivity |]. split; [reflexivity |]. split.
  - destruct parentOpts as [given |]; simpl; [apply Hparent |]; reflexivity.
  - destruct (lifo opts) as [[|]|], (priority opts); split; reflexivity.
Qed.

Lemma addJob_push_command_witness :
  exists args key,
    fst (run (addJob Example.queue Example.json Example.lifo_opts None None) [])
      = [Invoked "addJob" args] /\
    args !! 15%nat = Some (Arg (JNum 0)) /\
    args !! 19%nat = Some (Arg key) /\ truthy key = false /\
    args !! 17%nat = Some (Arg (JStr "RPUSH")) /\
    args !! 16%nat = Some (Arg (JNum 3)).
Proof.
  apply (addJob_push_command Example.queue Example.json Example.lifo_opts None None).
  - reflexivity.
  - discriminate.
Defined.

(** ** Group keys *)




(** The dotted path of the example limiter resolves in the example
    payload, and the group is appended to a fresh id or to the caller's. *)
Lemma jobIdForGroup_examples :
  let mine :=
    {| jobId := Some "mine"; priority := None; delay := None; lifo := None;
       parent := None; repeat := None |} in
  Lodash.get Example.payload (Some "customer.id") = JNum 42 /\
  Queue.jobIdForGroup Example.grouped None Example.payload "fresh" = Some "fresh:42" /\
  Queue.jobIdForGroup Example.grouped (Some Example.no_opts) Example.payload "fresh"
    = Some "fresh:42" /\
  Queue.jobIdForGroup Example.grouped (Some mine) Example.payload "fresh"
    = Some "mine:42" /\
  Queue.jobIdForGroup Example.grouped (Some mine) (JObj [("order", JNum 1)]) "fresh"
    = Some "mine" /\
  resolves_plainly (JObj [("order", JNum 1)]) "customer.id" = true /\
  resolves_plainly Example.payload "customer.name.length" = false /\
  Queue.jobIdForGroup Example.plain (Some mine) Example.payload "fresh"
    = Some "mine".
Proof. repeat split; vm_compute; reflexivity. Qed.

(** ** Obliterating a queue *)

Lemma obliterate_returns_cursor (queue : MinimalQueue) (o : ObliterateOpts)
    (r : reply) :
  keeps_looping r = true \/ r = RInt 0 ->
  run (Scripts.obliterate queue o) [r]
    = ([Invoked "obliterate"
          [Arg (JStr (keys queue "meta")); Arg (JStr (toKey queue ""));
           Arg (JNum (count o));
           Arg (if force o then JStr "force" else JNull)]],
       Some (Return r)).
Proof.
  intros [Hr | ->]; [| reflexivity].
  destruct r as [z | | fields id]; try discriminate; try reflexivity.
  unfold Scripts.obliterate. cbn [run].
  destruct (Z.ltb_spec z 0) as [Hneg | Hpos].
  - rewrite (negative_RInt z Hneg).
    destruct z as [| p | p]; try reflexivity.
    destruct p as [p | [p | p |] |]; try reflexivity; discriminate.
  - rewrite (negative_RInt_nonneg z Hpos). reflexivity.
Qed.

Lemma keeps_looping_truthy (c : reply) :
  keeps_looping c = true -> reply_truthy c = true.
Proof.
  destruct c as [z | |]; try discriminate; try reflexivity.
  simpl. destruct (z =? 0); [discriminate | reflexivity].
Qed.

Lemma obliterate_loop_until_zero (this : Queue.Queue)
    (opts : option Queue.ObliterateOpts) (pre post : list reply) :
  Forall (fun c => keeps_looping c = true) pre ->
  Queue.obliterate_loop this opts (pre ++ RInt 0 :: post)
    = (replicate (S (length pre))
         (Invoked "obliterate"
            [Arg (JStr (keys (Queue.base this) "meta"));
             Arg (JStr (toKey (Queue.base this) ""));
             Arg (JNum (count (Queue.spread_defaults opts)));
             Arg (if force (Queue.spread_defaults opts) then JStr "force" else JNull)]),
       Some (Return tt)).
Proof.
  induction pre as [| c pre IH]; intros Hpre.
  - simpl app. cbn [Queue.obliterate_loop].
    rewrite obliterate_returns_cursor by (right; reflexivity).
    reflexivity.
  - inversion Hpre as [| ? ? Hc Hrest]; subst.
    simpl app. cbn [Queue.obliterate_loop].
    rewrite obliterate_returns_cursor by (left; exact Hc).
    rewrite (keeps_looping_truthy c Hc), (IH Hrest). reflexivity.
Qed.

(** C9: the obliterate wrapper throws 'Cannot obliterate non-paused queue'
    on result -1 and 'Cannot obliterate queue with active jobs' on result
    -2.  Queue.obliterate first invokes the pause script and emits
    'paused', then invokes the obliterate script once per cursor, with
    count 1000 unless given and without 'force' unless force is given as
    true, and returns when the cursor is 0: if the cursors before the first
    0 are non-zero, the script has been invoked once for each of them and
    once for the 0, and never afterwards. *)
Theorem obliterate_pauses_then_loops (this : Queue.Queue)
    (opts : option Queue.ObliterateOpts) (paused : reply)
    (pre post : list reply) :
  Forall (fun c => keeps_looping c = true) pre ->
  let given := Queue.spread_defaults opts in
  let invocation :=
    Invoked "obliterate"
      [Arg (JStr (keys (Queue.base this) "meta"));
       Arg (JStr (toKey (Queue.base this) ""));
       Arg (JNum (match opts ≫= Queue.opt_count with Some n => n | None => 1000 end));
       Arg (match opts ≫= Queue.opt_force with
            | Some true => JStr "force"
            | Some false | None => JNull
            end)] in
  Queue.obliterate this opts (paused :: pre ++ RInt 0 :: post)
    = (Invoked "pause"
         [Arg (JStr (toKey (Queue.base this) "wait"));
          Arg (JStr (toKey (Queue.base this) "paused"));
          Arg (JStr (toKey (Queue.base this) "meta"));
          Arg (JStr (keys (Queue.base this) "events"));
          Arg (JStr "paused")]
         :: Emitted "paused" :: replicate (S (length pre)) invocation,
       Some (Return tt)) /\
  snd (run (Scripts.obliterate (Queue.base this) given) [RInt (-1)])
    = Some (Throw (JErr (MkError "Cannot obliterate non-paused queue"))) /\
  snd (run (Scripts.obliterate (Queue.base this) given) [RInt (-2)])
    = Some (Throw (JErr (MkError "Cannot obliterate queue with active jobs"))) /\
  snd (Queue.obliterate this opts (paused :: pre ++ [RInt (-1)]))
    = Some (Throw (JErr (MkError "Cannot obliterate non-paused queue"))).
Proof.
  intros Hpre. cbv zeta.
  assert (Hinv :
    Invoked "obliterate"
      [Arg (JStr (keys (Queue.base this) "meta"));
       Arg (JStr (toKey (Queue.base this) ""));
       Arg (JNum (count (Queue.spread_defaults opts)));
       Arg (if force (Queue.spread_defaults opts) then JStr "force" else JNull)]
    = Invoked "obliterate"
      [Arg (JStr (keys (Queue.base this) "meta"));
       Arg (JStr (toKey (Queue.base this) ""));
       Arg (JNum (match opts ≫= Queue.opt_count with Some n => n | None => 1000 end));
       Arg (match opts ≫= Queue.opt_force with
            | Some true => JStr "force"
            | Some false | None => JNull
            end)]).
  { unfold Queue.spread_defaults. simpl.
    destruct (opts ≫= Queue.opt_count), (opts ≫= Queue.opt_force) as [[|]|];
      reflexivity. }
  repeat split.
  - unfold Queue.obliterate. simpl run.
    rewrite (obliterate_loop_until_zero this opts pre post Hpre).
    rewrite Hinv. reflexivity.
  - unfold Queue.obliterate. simpl run.
    clear Hinv. induction Hpre as [| c pre Hc Hpre IH].
    + reflexivity.
    + simpl app. cbn [Queue.obliterate_loop].
      rewrite obliterate_returns_cursor by (left; exact Hc).
      rewrite (keeps_looping_truthy c Hc).
      destruct (Queue.obliterate_loop this opts (pre ++ [RInt (-1)])) as [t o] eqn:Hloop.
      simpl in IH. simpl. exact IH.
Qed.

Lemma obliterate_pauses_then_loops_witness :
  Queue.obliterate Example.plain None [RInt 1; RInt 17; RInt 4; RInt 0; RInt 9]
    = ([Invoked "pause"
          [Arg (JStr "bull:q:wait"); Arg (JStr "bull:q:paused");
           Arg (JStr "bull:q:meta"); Arg (JStr "bull:q:events");
           Arg (JStr "paused")];
        Emitted "paused";
        Invoked "obliterate"
          [Arg (JStr "bull:q:meta"); Arg (JStr "bull:q:"); Arg (JNum 1000); Arg JNull];
        Invoked "obliterate"
          [Arg (JStr "bull:q:meta"); Arg (JStr "bull:q:"); Arg (JNum 1000); Arg JNull];
        Invoked "obliterate"
          [Arg (JStr "bull:q:meta"); Arg (JStr "bull:q:"); Arg (JNum 1000); Arg JNull]],
       Some (Return tt)).
Proof.
  apply (obliterate_pauses_then_loops Example.plain None (RInt 1)
           [RInt 17; RInt 4] [RInt 9]).
  repeat constructor.
Defined.

(** ** Moving a parent to [waiting-children] *)

Lemma mem_head (x : string) (l : list string) : Lua.mem x (x :: l) = true.
Proof. unfold Lua.mem. simpl. by rewrite String.eqb_refl. Qed.

Lemma mem_without (x : string) (l : list string) :
  Lua.mem x (Lua.without x l) = false.
Proof.
  unfold Lua.mem, Lua.without. induction l as [| y l IH]; [reflexivity |].
  simpl. destruct (String.eqb x y) eqn:Hxy; simpl; [exact IH |].
  rewrite Hxy. exact IH.
Qed.

Lemma mem_app_last (x : string) (l : list string) : Lua.mem x (l ++ [x]) = true.
Proof.
  unfold Lua.mem. rewrite existsb_app. simpl.
  rewrite String.eqb_refl. by rewrite orb_true_r.
Qed.

(** C3, as stated, fails on the wrapper: when the dependencies set is empty
    the script's outcome 0 is turned into [true], not 0, and a negative
    code outside the table, such as -5, yields [undefined], not an
    error. *)
Lemma moveToWaitingChildren_returns_boolean_counterexample :
  Lua.members Example.childless_store (Example.key "7" +:+ ":dependencies") = [] /\
  exec (Lua.client Example.queue)
       (moveToWaitingChildren Example.queue "7" "tok" None) Example.childless_store
    = (Example.childless_store, Return (JBool true)) /\
  JBool true <> JNum 0 /\
  snd (run (moveToWaitingChildren Example.queue "7" "tok" None) [RInt (-5)])
    = Some (Return JUndefined).
Proof. repeat split; discriminate. Qed.

(** The wrapper hands the value of [finishedErrors] back with [return],
    where [moveToFinished], [moveToDelayed] and [changeDelay] throw it. *)
Lemma moveToWaitingChildren_returns_finishedErrors (queue : MinimalQueue)
    (jobId token : string) (opts : option MoveToChildrenOpts) (code : Z) :
  code <> 0 -> code <> 1 ->
  snd (run (moveToWaitingChildren queue jobId token opts) [RInt code])
    = Some (Return (finishedErrors code jobId "moveToWaitingChildren" "active")).
Proof.
  intros H0 H1. unfold moveToWaitingChildren. cbn [run].
  destruct code as [| [p | p |] | p]; try reflexivity; congruence.
Qed.

(** C3, amended: when the job's dependencies set is empty the script is a
    no-op with outcome 0, which the wrapper returns as true; when the set
    is not empty, the lock holds the token and the job is active, the job
    is moved from active to waiting-children and the script's outcome 1 is
    returned by the wrapper as false; the script codes -1, -2, -3 and -4
    yield the Error of that code. *)
Theorem moveToWaitingChildren_outcomes (queue : MinimalQueue)
    (jobId token : string) (opts : option MoveToChildrenOpts) (st : Lua.Store) :
  let lockKey := toKey queue (jobId +:+ ":lock") in
  let activeKey := toKey queue "active" in
  let waitingChildrenKey := toKey queue "waiting-children" in
  let dependencies := Lua.members st (toKey queue jobId +:+ ":dependencies") in
  let script :=
    Lua.moveToWaitingChildren lockKey activeKey waitingChildrenKey
      (toKey queue jobId) token jobId in
  let operation :=
    exec (Lua.client queue) (moveToWaitingChildren queue jobId token opts) in
  (dependencies = [] ->
   script st = (st, 0) /\ operation st = (st, Return (JBool true))) /\
  (dependencies <> [] ->
   Lua.strings st !! lockKey = Some token ->
   Lua.mem jobId (Lua.elements st activeKey) = true ->
   exists st',
     script st = (st', 1) /\
     operation st = (st', Return (JBool false)) /\
     Lua.elements st' activeKey = Lua.without jobId (Lua.elements st activeKey) /\
     Lua.mem jobId (Lua.elements st' activeKey) = false /\
     Lua.members st' waitingChildrenKey = jobId :: Lua.members st waitingChildrenKey /\
     Lua.mem jobId (Lua.members st' waitingChildrenKey) = true) /\
  (forall code, code = -1 \/ code = -2 \/ code = -3 \/ code = -4 ->
   exists message,
     finishedErrors code jobId "moveToWaitingChildren" "active"
       = JErr (MkError message) /\
     carries
       (snd (run (moveToWaitingChildren queue jobId token opts) [RInt code]))
       (JErr (MkError message))).
Proof.
  cbv zeta.
  assert (Hop : forall s,
    exec (Lua.client queue) (moveToWaitingChildren queue jobId token opts) s
    = let '(s', code) :=
        Lua.moveToWaitingChildren (toKey queue (jobId +:+ ":lock"))
          (toKey queue "active") (toKey queue "waiting-children")
          (toKey queue jobId) token jobId s in
      match code with
      | 0 => (s', Return (JBool true))
      | 1 => (s', Return (JBool false))
      | _ => (s', Return (finishedErrors code jobId "moveToWaitingChildren" "active"))
      end).
  { intros s. unfold moveToWaitingChildren. cbn [exec].
    unfold Lua.client. simpl String.eqb. cbv iota.
    unfold moveToWaitingChildrenArgs, Lua.arg_string. simpl.
    destruct (Lua.moveToWaitingChildren _ _ _ _ _ _ s) as [s' code].
    destruct code as [| [p | p |] | p]; reflexivity. }
  split; [| split].
  - intros Hdeps. rewrite Hop. unfold Lua.moveToWaitingChildren.
    rewrite Hdeps. split; reflexivity.
  - intros Hdeps Hlock Hactive. rewrite Hop. unfold Lua.moveToWaitingChildren.
    destruct (Lua.members st (toKey queue jobId +:+ ":dependencies"))
      as [| d ds]; [congruence |].
    rewrite bool_decide_eq_true_2 by exact Hlock.
    rewrite Hactive. simpl negb. cbv iota.
    eexists. split; [reflexivity |]. split; [reflexivity |].
    unfold Lua.elements, Lua.members, Lua.set_members, Lua.set_list. simpl.
    rewrite !lookup_insert_eq. simpl.
    repeat split.
    + apply mem_without.
    + apply mem_head.
  - intros code [-> | [-> | [-> | ->]]]; eexists;
      (split; [reflexivity | left; reflexivity]).
Qed.

Lemma moveToWaitingChildren_outcomes_witness :
  exists st',
    Lua.moveToWaitingChildren (Example.key "7:lock") (Example.key "active")
      (Example.key "waiting-children") (Example.key "7") "tok" "7"
      Example.parent_store = (st', 1) /\
    exec (Lua.client Example.queue)
         (moveToWaitingChildren Example.queue "7" "tok" None) Example.parent_store
      = (st', Return (JBool false)) /\
    Lua.elements st' (Example.key "active")
      = Lua.without "7" (Lua.elements Example.parent_store (Example.key "active")) /\
    Lua.mem "7" (Lua.elements st' (Example.key "active")) = false /\
    Lua.members st' (Example.key "waiting-children")
      = "7" :: Lua.members Example.parent_store (Example.key "waiting-children") /\
    Lua.mem "7" (Lua.members st' (Example.key "waiting-children")) = true.
Proof.
  apply (moveToWaitingChildren_outcomes Example.queue "7" "tok" None
           Example.parent_store).
  - discriminate.
  - reflexivity.
  - reflexivity.
Defined.

(** ** Reprocessing a finished job *)

(** C6: reprocessJob sends the push command RPUSH when the job's lifo
    option is set and LPUSH otherwise, and returns the script's code
    unchanged: 0 when the job hash does not exist, -1 when the job is
    locked, -2 when the job is not in the expected set (completed or
    failed), and 1 on success, when the id has left that set and has been
    pushed into wait (paused when the queue is paused) at the tail for
    RPUSH and at the head for LPUSH. *)
Theorem reprocessJob_outcomes (queue : MinimalQueue) (job : Job)
    (jopts : JobsOptions) (state : finishedState) (st : Lua.Store) :
  job_opts job = Some jopts ->
  let lifo := match lifo jopts with Some true => true | _ => false end in
  let jobKey := toKey queue (id job) in
  let stateKey := toKey queue (state_name state) in
  let paused :=
    bool_decide (is_Some (Lua.hashes st !! keys queue "meta" ≫= (.!! "paused"))) in
  let target := if paused then keys queue "paused" else toKey queue "wait" in
  let operation := exec (Lua.client queue) (reprocessJob queue job state) in
  (exists args,
     fst (run (reprocessJob queue job state) []) = [Invoked "reprocessJob" args] /\
     args !! 5%nat = Some (Arg (JStr (if lifo then "RPUSH" else "LPUSH")))) /\
  (forall r, snd (run (reprocessJob queue job state) [r]) = Some (Return r)) /\
  (Lua.hashes st !! jobKey = None -> operation st = (st, Return (RInt 0))) /\
  (is_Some (Lua.hashes st !! jobKey) ->
   is_Some (Lua.strings st !! (jobKey +:+ ":lock")) ->
   operation st = (st, Return (RInt (-1)))) /\
  (is_Some (Lua.hashes st !! jobKey) ->
   Lua.strings st !! (jobKey +:+ ":lock") = None ->
   Lua.mem (id job) (Lua.members st stateKey) = false ->
   operation st = (st, Return (RInt (-2)))) /\
  (is_Some (Lua.hashes st !! jobKey) ->
   Lua.strings st !! (jobKey +:+ ":lock") = None ->
   Lua.mem (id job) (Lua.members st stateKey) = true ->
   exists st',
     operation st = (st', Return (RInt 1)) /\
     Lua.mem (id job) (Lua.members st' stateKey) = false /\
     Lua.elements st' target
       = (if lifo then Lua.elements st target ++ [id job]
          else id job :: Lua.elements st target) /\
     Lua.mem (id job) (Lua.elements st' target) = true).
Proof.
  intros Hopts. cbv zeta.
  assert (Hcmd :
    (if is_true (Scripts.lifo jopts) then "R" else "L") +:+ "PUSH"
    = if match Scripts.lifo jopts with Some true => true | _ => false end
      then "RPUSH" else "LPUSH").
  { destruct (Scripts.lifo jopts) as [[|]|]; reflexivity. }
  assert (Hop : forall s,
    exec (Lua.client queue) (reprocessJob queue job state) s
    = let '(s', code) :=
        Lua.reprocessJob (keys queue "meta") (keys queue "paused")
          (toKey queue (id job)) (toKey queue (state_name state))
          (toKey queue "wait") (id job)
          (if match Scripts.lifo jopts with Some true => true | _ => false end
           then "RPUSH" else "LPUSH") s in
      (s', Return (RInt code))).
  { intros s. unfold reprocessJob. rewrite Hopts. cbn [exec].
    unfold Lua.client. simpl String.eqb. cbv iota.
    unfold Lua.arg_string. simpl. rewrite Hcmd.
    destruct (Lua.reprocessJob _ _ _ _ _ _ _ s) as [s' code]. reflexivity. }
  split; [| split; [| split; [| split; [| split]]]].
  - unfold reprocessJob. rewrite Hopts. eexists. split; [reflexivity |].
    simpl. rewrite Hcmd. reflexivity.
  - intros r. unfold reprocessJob. rewrite Hopts. reflexivity.
  - intros Hmissing. rewrite Hop. unfold Lua.reprocessJob.
    rewrite Hmissing. reflexivity.
  - intros [h Hh] Hlocked. rewrite Hop. unfold Lua.reprocessJob.
    rewrite Hh. rewrite bool_decide_eq_true_2 by exact Hlocked. reflexivity.
  - intros [h Hh] Hfree Hout. rewrite Hop. unfold Lua.reprocessJob.
    rewrite Hh, Hfree.
    rewrite bool_decide_eq_false_2 by (intros [? ?]; discriminate).
    rewrite Hout. reflexivity.
  - intros [h Hh] Hfree Hin. rewrite Hop. unfold Lua.reprocessJob.
    rewrite Hh, Hfree.
    rewrite bool_decide_eq_false_2 by (intros [? ?]; discriminate).
    rewrite Hin. simpl negb. cbv iota.
    eexists. split; [reflexivity |].
    unfold Lua.elements, Lua.members, Lua.set_members, Lua.set_list. simpl.
    rewrite !lookup_insert_eq. simpl.
    split; [apply mem_without |].
    unfold Lua.push.
    destruct (Scripts.lifo jopts) as [[|]|]; simpl; split;
      first [reflexivity | apply mem_app_last | apply mem_head].
Qed.

Lemma reprocessJob_outcomes_witness :
  exists st',
    exec (Lua.client Example.queue)
         (reprocessJob Example.queue Example.lifo_job failed) Example.failed_store
      = (st', Return (RInt 1)) /\
    Lua.mem "8" (Lua.members st' (Example.key "failed")) = false /\
    Lua.elements st' (Example.key "wait") = ["3"; "8"] /\
    Lua.mem "8" (Lua.elements st' (Example.key "wait")) = true.
Proof.
  apply (reprocessJob_outcomes Example.queue Example.lifo_job Example.lifo_opts
           failed Example.failed_store eq_refl).
  - vm_compute. eauto.
  - reflexivity.
  - reflexivity.
Defined.

(** * Further properties of the sources *)

(** ** [array2obj] and [isEmpty] *)

Lemma own_fields_NoDup (pairs : list (string * string)) :
  List.NoDup (map fst pairs) -> List.NoDup (map fst (own_fields pairs)).
Proof.
  induction pairs as [| [k v] pairs IH]; intros Hnd; [constructor |].
  inversion Hnd as [| ? ? Hk Hnd']; subst.
  rewrite own_fields_cons. destruct (String.eqb k "__proto__"); [auto |].
  simpl. constructor; [| auto].
  intros Hin. apply own_fields_names in Hin. tauto.
Qed.

(** X1: array2obj undoes the flattening of a hash into [[k1, v1, k2, v2,
    ...]], in whatever order the store lists the fields: the object binds
    exactly the fields of the hash other than __proto__, each to its
    value. *)
Theorem array2obj_of_hash (h : gmap string string)
    (pairs : list (string * string)) :
  pairs ≡ₚ map_to_list h ->
  Utils.array2obj (flat_fields pairs) = Some <$> delete "__proto__" h.
Proof.
  intros Hperm. rewrite array2obj_pairs.
  assert (Hin : forall k v, In (k, v) pairs <-> h !! k = Some v).
  { intros k v. rewrite <- list_elem_of_In, Hperm. apply elem_of_map_to_list. }
  assert (Hnd : List.NoDup (map fst pairs)).
  { assert (Hmap : map fst pairs = pairs.*1).
    { clear. induction pairs as [| kv l IH]; [reflexivity |].
      cbn. f_equal; try exact IH. }
    rewrite Hmap. apply NoDup_ListNoDup. rewrite Hperm.
    apply NoDup_fst_map_to_list. }
  apply map_eq. intros i. rewrite lookup_fmap.
  destruct (decide (i = "__proto__")) as [-> | Hne].
  - rewrite lookup_delete_eq. simpl. apply object_of_absent.
    intros Hp. apply own_fields_names in Hp. tauto.
  - rewrite lookup_delete_ne by congruence.
    destruct (h !! i) as [x |] eqn:Hx; simpl.
    + apply object_of_lookup; [apply own_fields_NoDup; exact Hnd |].
      apply own_fields_In. split; [apply Hin; exact Hx | exact Hne].
    + apply object_of_absent. intros Hp. apply own_fields_names in Hp as [Hp _].
      apply in_map_iff in Hp as ([k v] & <- & Hkv).
      apply Hin in Hkv. simpl in Hx. congruence.
Qed.

Lemma array2obj_of_hash_witness :
  Utils.array2obj
    (flat_fields
       (map_to_list ({[ "name" := "mail"; "data" := "{}" ]} : gmap string string)))
    = Some <$> delete "__proto__"
                 ({[ "name" := "mail"; "data" := "{}" ]} : gmap string string).
Proof.
  apply (array2obj_of_hash {[ "name" := "mail"; "data" := "{}" ]}).
  reflexivity.
Defined.

(** X2: when a field name other than __proto__ occurs more than once in
    the flat array, the object holds the value of its last occurrence. *)
Theorem array2obj_later_wins (pairs rest : list (string * string))
    (k v : string) :
  k <> "__proto__" ->
  ~ In k (map fst rest) ->
  Utils.array2obj (flat_fields (pairs ++ (k, v) :: rest)) !! k = Some (Some v).
Proof.
  intros Hk Hlast. rewrite array2obj_pairs.
  induction pairs as [| [k0 v0] pairs IH]; simpl app; rewrite own_fields_cons.
  - destruct (String.eqb_spec k "__proto__") as [-> | _]; [congruence |].
    rewrite object_of_cons.
    rewrite lookup_union_r; [apply lookup_singleton_eq |].
    apply object_of_absent. intros Hin. apply own_fields_names in Hin. tauto.
  - destruct (String.eqb k0 "__proto__"); [exact IH |].
    rewrite object_of_cons. apply lookup_union_Some_l. exact IH.
Qed.

Lemma array2obj_later_wins_witness :
  Utils.array2obj ["k"; "old"; "other"; "x"; "k"; "new"; "last"; "y"] !! "k"
    = Some (Some "new").
Proof.
  apply (array2obj_later_wins [("k", "old"); ("other", "x")] [("last", "y")]
           "k" "new").
  - discriminate.
  - simpl. intros [H | []]. discriminate H.
Defined.

Lemma array2obj_from_dangling (pairs : list (string * string)) (k : string)
    (obj : gmap string (option string)) :
  Utils.array2obj_from (flat_fields pairs ++ [k]) obj
    = Utils.assign (Utils.array2obj_from (flat_fields pairs) obj) k None.
Proof.
  revert obj. induction pairs as [| [a b] pairs IH]; intros obj.
  - reflexivity.
  - simpl. apply IH.
Qed.

(** Every array is a flattened list of fields, possibly followed by one
    dangling name. *)
Lemma flat_or_dangling (arr : list string) :
  exists pairs, arr = flat_fields pairs \/ exists k, arr = flat_fields pairs ++ [k].
Proof.
  assert (H : forall n (l : list string), (length l <= n)%nat ->
            exists pairs, l = flat_fields pairs
                          \/ exists k, l = flat_fields pairs ++ [k]).
  { induction n as [| n IH]; intros l Hlen.
    - destruct l; [| simpl in Hlen; lia]. exists []. left. reflexivity.
    - destruct l as [| a [| b l]].
      + exists []. left. reflexivity.
      + exists []. right. exists a. reflexivity.
      + destruct (IH l) as [pairs [-> | [k ->]]]; [simpl in Hlen; lia | |].
        * exists ((a, b) :: pairs). left. reflexivity.
        * exists ((a, b) :: pairs). right. exists k. reflexivity. }
  apply (H (length arr)). lia.
Qed.

(** X3: a name other than __proto__ left without a value at the end of an
    odd-length array is bound to undefined, also when an earlier pair had
    given it a value; the other names keep the values the pairs give them;
    a dangling __proto__ leaves the object as the pairs made it. *)
Theorem array2obj_dangling_name (pairs : list (string * string)) (k : string) :
  (k <> "__proto__" ->
   Utils.array2obj (flat_fields pairs ++ [k]) !! k = Some None) /\
  (forall k', k' <> k ->
     Utils.array2obj (flat_fields pairs ++ [k]) !! k'
       = Utils.array2obj (flat_fields pairs) !! k') /\
  (k = "__proto__" ->
   Utils.array2obj (flat_fields pairs ++ [k]) = Utils.array2obj (flat_fields pairs)).
Proof.
  unfold Utils.array2obj. rewrite array2obj_from_dangling. unfold Utils.assign.
  destruct (String.eqb_spec k "__proto__") as [-> | Hne].
  - repeat split; congruence.
  - repeat split.
    + intros _. apply lookup_insert_eq.
    + intros k' Hk'. apply lookup_insert_ne. congruence.
    + congruence.
Qed.

Lemma names_flat (pairs : list (string * string)) :
  names (flat_fields pairs) = map fst pairs.
Proof.
  induction pairs as [| [k v] pairs IH]; [reflexivity |].
  simpl. f_equal. exact IH.
Qed.

Lemma names_dangling (pairs : list (string * string)) (k : string) :
  names (flat_fields pairs ++ [k]) = map fst pairs ++ [k].
Proof.
  induction pairs as [| [a b] pairs IH]; [reflexivity |].
  simpl. f_equal. exact IH.
Qed.

Lemma object_of_is_Some (pairs : list (string * string)) (k : string) :
  is_Some (object_of pairs !! k) <-> In k (map fst pairs).
Proof.
  induction pairs as [| [k0 v0] pairs IH].
  - unfold object_of. simpl. rewrite lookup_empty. split; [intros [x Hx] | intros []].
    discriminate Hx.
  - rewrite object_of_cons, lookup_union_is_Some, IH. simpl.
    destruct (decide (k0 = k)) as [-> | Hne].
    + rewrite lookup_singleton_eq. split; [auto | intros _; right; eauto].
    + rewrite lookup_singleton_ne by exact Hne.
      split; [intros [H | [x Hx]]; [auto | discriminate Hx] | intros [H | H]; [congruence | auto]].
Qed.

(** The keys of the object are the names of the array, [__proto__]
    excepted. *)
Lemma array2obj_keys (arr : list string) (k : string) :
  is_Some (Utils.array2obj arr !! k) <-> In k (names arr) /\ k <> "__proto__".
Proof.
  destruct (flat_or_dangling arr) as [pairs [-> | [k0 ->]]].
  - rewrite array2obj_pairs, object_of_is_Some, names_flat.
    apply own_fields_names.
  - unfold Utils.array2obj. rewrite array2obj_from_dangling.
    fold (Utils.array2obj (flat_fields pairs)).
    rewrite array2obj_pairs, names_dangling, in_app_iff. unfold Utils.assign.
    destruct (String.eqb_spec k0 "__proto__") as [-> | Hne0].
    + rewrite object_of_is_Some, own_fields_names. simpl. intuition congruence.
    + destruct (decide (k0 = k)) as [-> | Hne].
      * rewrite lookup_insert_eq. simpl. split; [intros _ | eauto]. auto.
      * rewrite lookup_insert_ne by exact Hne.
        rewrite object_of_is_Some, own_fields_names. simpl. intuition congruence.
Qed.

Lemma isEmpty_true {V} (obj : gmap string V) :
  Utils.isEmpty obj = true <-> forall k, obj !! k = None.
Proof.
  unfold Utils.isEmpty. rewrite <- map_empty.
  destruct (map_to_list obj) as [| kv l] eqn:Hl.
  - apply map_to_list_empty_iff in Hl. tauto.
  - split; [discriminate |]. intros ->. rewrite map_to_list_empty in Hl.
    discriminate Hl.
Qed.

Lemma isEmpty_array2obj_names (arr : list string) :
  Utils.isEmpty (Utils.array2obj arr) = true
  <-> forall k, In k (names arr) -> k = "__proto__".
Proof.
  rewrite isEmpty_true. split.
  - intros Hnone k Hk. destruct (decide (k = "__proto__")) as [| Hne]; [assumption |].
    assert (Hsome : is_Some (Utils.array2obj arr !! k))
      by (apply array2obj_keys; auto).
    rewrite Hnone in Hsome. destruct Hsome as [x Hx]. discriminate Hx.
  - intros Hall k. apply eq_None_not_Some. intros Hsome.
    apply array2obj_keys in Hsome as [Hin Hne]. auto.
Qed.

(** X4: the object array2obj builds is empty, in the sense of isEmpty,
    exactly when every name of the array (its elements at even positions)
    is __proto__, in particular when the array is empty; an array with
    another name gives a non-empty object. *)
Theorem isEmpty_array2obj (arr : list string) :
  (Utils.isEmpty (Utils.array2obj arr) = true
   <-> forall k, In k (names arr) -> k = "__proto__") /\
  Utils.isEmpty (Utils.array2obj []) = true /\
  (forall f rest, f <> "__proto__" ->
     Utils.isEmpty (Utils.array2obj (f :: rest)) = false).
Proof.
  split; [apply isEmpty_array2obj_names |]. split; [reflexivity |].
  intros f rest Hf. apply not_true_is_false. intros Hempty.
  pose proof (proj1 (isEmpty_array2obj_names (f :: rest)) Hempty) as Hall.
  apply Hf, Hall. destruct rest; left; reflexivity.
Qed.

(** X5: raw2jobData yields a job only for a reply [[fields, id]] with a
    non-empty field array; the job is then the object array2obj builds,
    whose keys are the names of the array other than __proto__, and the
    id is the reply's.  The job is empty only when every name is
    __proto__. *)
Theorem raw2jobData_job_keys (raw : reply) (job : gmap string (option string))
    (jobId : string) :
  raw2jobData raw = Return (JobData job jobId) ->
  exists f fields,
    raw = RJob (f :: fields) jobId /\
    job = Utils.array2obj (f :: fields) /\
    (forall k, is_Some (job !! k) <-> In k (names (f :: fields)) /\ k <> "__proto__") /\
    (Utils.isEmpty job = true <-> forall k, In k (names (f :: fields)) -> k = "__proto__").
Proof.
  intros Hraw. destruct raw as [z | | fields id]; simpl in Hraw.
  - destruct (z =? 0); discriminate Hraw.
  - discriminate Hraw.
  - destruct fields as [| f fields]; simpl in Hraw; [discriminate Hraw |].
    injection Hraw as <- <-. exists f, fields.
    split; [reflexivity |]. split; [reflexivity |]. split.
    + intros k. apply array2obj_keys.
    + apply isEmpty_array2obj_names.
Qed.

Lemma raw2jobData_job_keys_witness :
  exists f fields,
    RJob ["__proto__"; "x"; "name"; "mail"] "7" = RJob (f :: fields) "7" /\
    Utils.array2obj ["__proto__"; "x"; "name"; "mail"] = Utils.array2obj (f :: fields) /\
    (forall k, is_Some (Utils.array2obj ["__proto__"; "x"; "name"; "mail"] !! k)
               <-> In k (names (f :: fields)) /\ k <> "__proto__") /\
    (Utils.isEmpty (Utils.array2obj ["__proto__"; "x"; "name"; "mail"]) = true
     <-> forall k, In k (names (f :: fields)) -> k = "__proto__").
Proof.
  apply (raw2jobData_job_keys (RJob ["__proto__"; "x"; "name"; "mail"] "7")
           (Utils.array2obj ["__proto__"; "x"; "name"; "mail"]) "7").
  reflexivity.
Defined.

(** ** Parent keys *)

Lemma occurs_app_middle (c : ascii) (a b : string) :
  occurs c (a +:+ String c b) = true.
Proof.
  induction a as [| x a IH]; simpl.
  - by rewrite Ascii.eqb_refl.
  - rewrite IH. apply orb_true_r.
Qed.

Lemma append_separator_inj (c : ascii) (q1 q2 i1 i2 : string) :
  occurs c i1 = false -> occurs c i2 = false ->
  q1 +:+ String c i1 = q2 +:+ String c i2 -> q1 = q2 /\ i1 = i2.
Proof.
  intros H1 H2. revert q2.
  induction q1 as [| x q1 IH]; intros [| y q2] Heq; simpl in Heq.
  - injection Heq as <-. split; reflexivity.
  - injection Heq as <- ->. rewrite occurs_app_middle in H1. discriminate H1.
  - injection Heq as -> <-. rewrite occurs_app_middle in H2. discriminate H2.
  - injection Heq as <- Heq. destruct (IH q2 Heq) as [-> ->].
    split; reflexivity.
Qed.

(** X6: getParentKey tells parents apart: when the job ids hold no ':',
    two parents with the same key have the same queue and the same id. *)
Theorem getParentKey_injective (id1 queue1 id2 queue2 : string) :
  occurs ":" id1 = false -> occurs ":" id2 = false ->
  Utils.getParentKey (Some (id1, queue1)) = Utils.getParentKey (Some (id2, queue2)) ->
  queue1 = queue2 /\ id1 = id2.
Proof.
  intros H1 H2 Heq. unfold Utils.getParentKey in Heq.
  injection Heq as Heq.
  apply (append_separator_inj ":" queue1 queue2 id1 id2 H1 H2).
  exact Heq.
Qed.

Lemma getParentKey_injective_witness :
  "bull:parents" = "bull:parents" /\ "12" = "12".
Proof.
  apply (getParentKey_injective "12" "bull:parents" "12" "bull:parents");
    reflexivity.
Defined.

(** Without the condition on the ids the keys can collide. *)
Lemma getParentKey_collision :
  Utils.getParentKey (Some ("b:7", "bull:a"))
    = Utils.getParentKey (Some ("7", "bull:a:b")).
Proof. reflexivity. Qed.

(** ** The messages of [finishedErrors] *)

Lemma append_inv_head (s a b : string) : s +:+ a = s +:+ b -> a = b.
Proof.
  induction s as [| c s IH]; simpl; intros H; [exact H |].
  injection H as H. exact (IH H).
Qed.

(** X7: the four result codes that finishedErrors knows yield four
    different Error objects, for whatever job, command and state: a caller
    can tell the failures apart by the message. *)
Theorem finishedErrors_messages_distinct (code1 code2 : Z)
    (jobId command state : string) :
  -4 <= code1 <= -1 -> -4 <= code2 <= -1 -> code1 <> code2 ->
  finishedErrors code1 jobId command state
    <> finishedErrors code2 jobId command state.
Proof.
  intros H1 H2 Hne.
  assert (C1 : code1 = -1 \/ code1 = -2 \/ code1 = -3 \/ code1 = -4) by lia.
  assert (C2 : code2 = -1 \/ code2 = -2 \/ code2 = -3 \/ code2 = -4) by lia.
  destruct C1 as [-> | [-> | [-> | ->]]], C2 as [-> | [-> | [-> | ->]]];
    try (exfalso; apply Hne; reflexivity);
    unfold finishedErrors; intros Heq; injection Heq as Heq;
    simpl in Heq; try discriminate Heq;
    repeat (injection Heq as Heq);
    repeat apply append_inv_head in Heq; simpl in Heq; discriminate Heq.
Qed.

Lemma finishedErrors_messages_distinct_witness :
  finishedErrors (-2) "7" "finished" "active"
    <> finishedErrors (-3) "7" "finished" "active".
Proof.
  apply (finishedErrors_messages_distinct (-2) (-3) "7" "finished" "active"); lia.
Defined.

(** ** Reading the composite score *)

(** X8: the timestamp can be read back from the score that
    moveToDelayedArgs, changeDelayArgs and moveToWaitingChildrenArgs send,
    for a timestamp below 2^41 and an id whose number the model reads as
    the runtime does: the score is below 2^53, the score divided by 4096
    is max(0, timestamp), and for a positive timestamp the remainder is
    the id's low twelve bits. *)
Theorem delayed_score_decodes (queue : MinimalQueue) (jobId token : string)
    (ts : Z) (child : option ParentRef) (id : option Z) :
  numericId jobId id -> ts < 2 ^ 41 ->
  exists score,
    moveToDelayedArgs queue jobId (Some ts) !! 5%nat = Some (ArgJSON (JNum score)) /\
    changeDelayArgs queue jobId ts !! 4%nat = Some (ArgJSON (JNum score)) /\
    moveToWaitingChildrenArgs queue jobId token
      {| timestamp := Some ts; child := child |} !! 6%nat
      = Some (ArgJSON (JNum score)) /\
    0 <= score < 2 ^ 53 /\
    score / 4096 = Z.max 0 ts /\
    (0 < ts -> score mod 4096 = bitand id (Some 0xFFF)).
Proof.
  intros Hid Hts.
  destruct (delayed_score_args queue jobId token ts child) as (H1 & H2 & H3).
  rewrite (numericId_ToNumber jobId id Hid) in H1, H2, H3.
  eexists. split; [exact H1 |]. split; [exact H2 |]. split; [exact H3 |].
  pose proof (bitand_low12_range id) as Hlow.
  destruct (Z.ltb_spec 0 ts) as [Hpos | Hneg].
  - rewrite Z.max_r by lia. split; [lia |]. split.
    + rewrite Z.add_comm, Z.div_add by lia.
      rewrite Z.div_small by exact Hlow. reflexivity.
    + intros _. rewrite Z.add_comm, Z.mod_add by lia.
      apply Z.mod_small. exact Hlow.
  - rewrite Z.max_l by lia. split; [lia |]. split; [reflexivity | lia].
Qed.

Lemma delayed_score_decodes_witness :
  exists score,
    moveToDelayedArgs Example.queue "4101" (Some 1600000000000) !! 5%nat
      = Some (ArgJSON (JNum score)) /\
    changeDelayArgs Example.queue "4101" 1600000000000 !! 4%nat
      = Some (ArgJSON (JNum score)) /\
    moveToWaitingChildrenArgs Example.queue "4101" "tok"
      {| timestamp := Some 1600000000000; child := None |} !! 6%nat
      = Some (ArgJSON (JNum score)) /\
    0 <= score < 2 ^ 53 /\
    score / 4096 = Z.max 0 1600000000000 /\
    (0 < 1600000000000 -> score mod 4096 = bitand (Some 4101) (Some 0xFFF)).
Proof.
  apply (delayed_score_decodes Example.queue "4101" "tok" 1600000000000 None
           (Some 4101)).
  - apply id_integer; reflexivity.
  - reflexivity.
Defined.

(** X9: below 2^41, scores order delayed jobs by wake-up time first and,
    within one millisecond, numeric ids of the same block of 4096 by id: a
    job with a later (clamped) timestamp has a strictly greater score
    whatever the ids, and at equal positive timestamps the smaller id has
    the smaller score. *)
Theorem delayed_score_orders (queue : MinimalQueue) (jobId1 jobId2 : string)
    (ts1 ts2 score1 score2 : Z) (id1 id2 : option Z) :
  numericId jobId1 id1 -> numericId jobId2 id2 ->
  ts1 < 2 ^ 41 -> ts2 < 2 ^ 41 ->
  moveToDelayedArgs queue jobId1 (Some ts1) !! 5%nat = Some (ArgJSON (JNum score1)) ->
  moveToDelayedArgs queue jobId2 (Some ts2) !! 5%nat = Some (ArgJSON (JNum score2)) ->
  (Z.max 0 ts1 < Z.max 0 ts2 -> score1 < score2) /\
  (forall n1 n2,
     id1 = Some n1 -> id2 = Some n2 ->
     ts1 = ts2 -> 0 < ts1 -> n1 / 4096 = n2 / 4096 -> n1 < n2 ->
     score1 < score2) /\
  score1 < 2 ^ 53 /\ score2 < 2 ^ 53.
Proof.
  intros Hid1 Hid2 Hts1 Hts2 H1 H2.
  destruct (delayed_score_args queue jobId1 "" ts1 None) as (E1 & _).
  destruct (delayed_score_args queue jobId2 "" ts2 None) as (E2 & _).
  rewrite (numericId_ToNumber jobId1 id1 Hid1) in E1.
  rewrite (numericId_ToNumber jobId2 id2 Hid2) in E2.
  rewrite E1 in H1. rewrite E2 in H2.
  injection H1 as <-. injection H2 as <-.
  pose proof (bitand_low12_range id1) as L1.
  pose proof (bitand_low12_range id2) as L2.
  split; [| split].
  - intros Hlt.
    destruct (Z.ltb_spec 0 ts1), (Z.ltb_spec 0 ts2); lia.
  - intros n1 n2 -> -> -> Hpos Hblock Hlt.
    destruct (Z.ltb_spec 0 ts2); [| lia].
    rewrite !bitand_low12.
    pose proof (Z.div_mod n1 4096 ltac:(lia)).
    pose proof (Z.div_mod n2 4096 ltac:(lia)).
    lia.
  - destruct (Z.ltb_spec 0 ts1), (Z.ltb_spec 0 ts2); lia.
Qed.

Lemma delayed_score_orders_witness :
  (Z.max 0 1000 < Z.max 0 1001 -> 4096005 < 4100100) /\
  (forall n1 n2,
     Some 5 = Some n1 -> Some 4 = Some n2 ->
     1000 = 1001 -> 0 < 1000 -> n1 / 4096 = n2 / 4096 -> n1 < n2 ->
     4096005 < 4100100) /\
  4096005 < 2 ^ 53 /\ 4100100 < 2 ^ 53.
Proof.
  apply (delayed_score_orders Example.queue "5" "4" 1000 1001 4096005 4100100
           (Some 5) (Some 4)).
  - apply id_integer; reflexivity.
  - apply id_integer; reflexivity.
  - reflexivity.
  - reflexivity.
  - reflexivity.
  - reflexivity.
Defined.

(** X10: the tiebreaker wraps.  At one timestamp, two numeric ids that
    differ by a multiple of 4096 get the same score, and so do any two ids
    that hold a character foreign to numbers. *)
Theorem delayed_score_wraps (queue : MinimalQueue) (jobId1 jobId2 : string)
    (ts : Z) (id1 id2 : option Z) :
  numericId jobId1 id1 -> numericId jobId2 id2 ->
  (forall n k, id1 = Some n -> id2 = Some (n + 4096 * k) ->
     moveToDelayedArgs queue jobId1 (Some ts) !! 5%nat
       = moveToDelayedArgs queue jobId2 (Some ts) !! 5%nat) /\
  (id1 = None -> id2 = None ->
     moveToDelayedArgs queue jobId1 (Some ts) !! 5%nat
       = moveToDelayedArgs queue jobId2 (Some ts) !! 5%nat).
Proof.
  intros Hid1 Hid2.
  destruct (delayed_score_args queue jobId1 "" ts None) as (E1 & _).
  destruct (delayed_score_args queue jobId2 "" ts None) as (E2 & _).
  rewrite E1, E2.
  rewrite (numericId_ToNumber jobId1 id1 Hid1).
  rewrite (numericId_ToNumber jobId2 id2 Hid2). split.
  - intros n k -> ->. rewrite !bitand_low12.
    rewrite (Z.mul_comm 4096 k), Z.mod_add by lia. reflexivity.
  - intros -> ->. reflexivity.
Qed.

Lemma delayed_score_wraps_witness :
  moveToDelayedArgs Example.queue "5" (Some 1000) !! 5%nat
    = moveToDelayedArgs Example.queue "4101" (Some 1000) !! 5%nat.
Proof.
  apply (delayed_score_wraps Example.queue "5" "4101" 1000 (Some 5) (Some 4101))
    with (n := 5) (k := 1).
  - apply id_integer; reflexivity.
  - apply id_integer; reflexivity.
  - reflexivity.
  - reflexivity.
Defined.

(** ** Ids that are not numbers *)

Lemma digits_value_colon (s : string) (acc : Z) :
  occurs ":" s = true -> digits_value s acc = None.
Proof.
  revert acc. induction s as [| c s IH]; intros acc Hocc; [discriminate Hocc |].
  cbn [occurs] in Hocc. cbn [digits_value].
  destruct (digit_of c) as [d |] eqn:Hd; [| reflexivity].
  apply IH. destruct (Ascii.eqb_spec ":" c) as [<- | _]; [| exact Hocc].
  discriminate Hd.
Qed.

(** An id that holds a ':' does not denote a number. *)
Lemma ToNumber_colon (s : string) : occurs ":" s = true -> ToNumber s = None.
Proof.
  destruct s as [| c rest]; [discriminate |]. intros Hocc.
  rewrite ToNumber_unfold.
  destruct rest as [| c' rest'].
  - apply digits_value_colon. exact Hocc.
  - assert (Hrest : forall x, Ascii.eqb c x = true -> x <> ":"%char ->
                      occurs ":" (String c' rest') = true).
    { intros x Hx Hne. apply Ascii.eqb_eq in Hx. subst x.
      cbn [occurs] in Hocc. destruct (Ascii.eqb_spec ":" c) as [<- | _];
        [congruence | exact Hocc]. }
    destruct (Ascii.eqb c "-") eqn:Hminus.
    { rewrite digits_value_colon; [reflexivity |].
      apply (Hrest "-"%char); [exact Hminus | discriminate]. }
    destruct (Ascii.eqb c "+") eqn:Hplus.
    { apply digits_value_colon.
      apply (Hrest "+"%char); [exact Hplus | discriminate]. }
    apply digits_value_colon. exact Hocc.
Qed.

Lemma occurs_append_r (c : ascii) (a b : string) :
  occurs c b = true -> occurs c (a +:+ b) = true.
Proof.
  intros Hb. induction a as [| x a IH]; simpl; [exact Hb |].
  rewrite IH. apply orb_true_r.
Qed.

(** X11: a job id that jobIdForGroup extends with a group is not a number,
    so the score of such a job carries no tiebreaker: it is max(0,
    timestamp) * 4096, the same for all grouped jobs of one millisecond. *)
Theorem grouped_id_has_no_tiebreaker (this : Queue.Queue)
    (opts : option JobsOptions) (data : value) (v4 jobId : string)
    (queue : MinimalQueue) (ts : Z) :
  (exists p, Queue.limiter this ≫= Queue.limiter_groupKey = Some p /\ p <> "") ->
  Lodash.get data (Queue.limiter this ≫= Queue.limiter_groupKey) <> JUndefined ->
  Queue.jobIdForGroup this opts data v4 = Some jobId ->
  ToNumber jobId = None /\
  moveToDelayedArgs queue jobId (Some ts) !! 5%nat
    = Some (ArgJSON (JNum (Z.max 0 ts * 4096))).
Proof.
  intros (p & Hp & Hne) Hgroup Hid.
  assert (Hnan : ToNumber jobId = None).
  { apply ToNumber_colon.
    unfold Queue.jobIdForGroup in Hid. rewrite Hp in Hid, Hgroup.
    destruct p as [| c p]; [congruence |]. simpl in Hid.
    destruct (Lodash.get data (Some (String c p))) eqn:Hg; try congruence;
      simpl in Hid; injection Hid as <-;
      apply occurs_append_r; reflexivity. }
  split; [exact Hnan |].
  destruct (delayed_score_args queue jobId "" ts None) as (-> & _).
  rewrite Hnan, bitand_NaN.
  destruct (Z.ltb_spec 0 ts).
  - rewrite Z.add_0_r. reflexivity.
  - rewrite Z.max_l by lia. reflexivity.
Qed.

Lemma grouped_id_has_no_tiebreaker_witness :
  ToNumber "fresh:42" = None /\
  moveToDelayedArgs Example.queue "fresh:42" (Some 1000) !! 5%nat
    = Some (ArgJSON (JNum (Z.max 0 1000 * 4096))).
Proof.
  apply (grouped_id_has_no_tiebreaker Example.grouped None Example.payload
           "fresh" "fresh:42" Example.queue 1000).
  - exists "customer.id". split; [reflexivity | discriminate].
  - discriminate.
  - reflexivity.
Defined.

(** ** Arguments that must agree between wrappers *)

(** X12: a job keeps its queueing order through its life: addJob,
    retryJobArgs and reprocessJob send the same push command for the same
    options, RPUSH exactly when lifo is true and LPUSH otherwise. *)
Theorem push_command_agrees (queue : MinimalQueue) (job : Job)
    (jopts : JobsOptions) (json : JobJson) (jobId : option string)
    (parentOpts : option ParentOpts) (state : finishedState) :
  job_opts job = Some jopts ->
  exists cmd,
    (cmd = "LPUSH" \/ cmd = "RPUSH") /\
    (cmd = "RPUSH" <-> lifo jopts = Some true) /\
    (exists args,
       fst (run (addJob queue json jopts jobId parentOpts) [])
         = [Invoked "addJob" args] /\
       args !! 17%nat = Some (Arg (JStr cmd))) /\
    (exists args,
       retryJobArgs queue job = Return args /\
       args !! 4%nat = Some (Arg (JStr cmd))) /\
    (exists args,
       fst (run (reprocessJob queue job state) []) = [Invoked "reprocessJob" args] /\
       args !! 5%nat = Some (Arg (JStr cmd))).
Proof.
  intros Hopts.
  exists (if is_true (lifo jopts) then "RPUSH" else "LPUSH").
  split; [destruct (is_true (lifo jopts)); auto |].
  split.
  { destruct (lifo jopts) as [[|] |]; simpl; split; intros H;
      try reflexivity; discriminate H. }
  split; [| split].
  - eexists. split; reflexivity.
  - unfold retryJobArgs. rewrite Hopts. eexists. split; [reflexivity |].
    simpl. destruct (is_true (lifo jopts)); reflexivity.
  - unfold reprocessJob. rewrite Hopts. eexists. split; [reflexivity |].
    simpl. destruct (is_true (lifo jopts)); reflexivity.
Qed.

Lemma push_command_agrees_witness :
  exists cmd,
    (cmd = "LPUSH" \/ cmd = "RPUSH") /\
    (cmd = "RPUSH" <-> lifo Example.lifo_opts = Some true) /\
    (exists args,
       fst (run (addJob Example.queue Example.json Example.lifo_opts None None) [])
         = [Invoked "addJob" args] /\
       args !! 17%nat = Some (Arg (JStr cmd))) /\
    (exists args,
       retryJobArgs Example.queue Example.lifo_job = Return args /\
       args !! 4%nat = Some (Arg (JStr cmd))) /\
    (exists args,
       fst (run (reprocessJob Example.queue Example.lifo_job failed) [])
         = [Invoked "reprocessJob" args] /\
       args !! 5%nat = Some (Arg (JStr cmd))).
Proof.
  apply (push_command_agrees Example.queue Example.lifo_job Example.lifo_opts
           Example.json None None failed).
  reflexivity.
Defined.


(** X14: reporting a failure does not fetch the next job unless asked to:
    with fetchNext left out, moveToFailedArgs always sends the flag 0,
    whereas moveToFinishedArgs then sends 1 on a queue that is neither
    closing nor rate limited; the failure is filed under the queue's
    'failed' key with the reason as the value of 'failedReason'. *)
Theorem moveToFailedArgs_default_no_fetch (queue : MinimalQueue) (job : Job)
    (failedReason : string) (removeOnFailed : bool + Z) (token : string)
    (now : Z) :
  let failure := moveToFailedArgs queue job failedReason removeOnFailed token None now in
  failure !! 15%nat = Some (Arg (JNum 0)) /\
  failure !! 1%nat = Some (Arg (JStr (keys queue "failed"))) /\
  failure !! 10%nat = Some (Arg (JStr "failedReason")) /\
  failure !! 11%nat = Some (Arg (JStr failedReason)) /\
  (closing queue = false -> limiter (opts queue) = None ->
   moveToFinishedArgs queue job (JStr failedReason) "failedReason"
     removeOnFailed "failed" token None now !! 15%nat = Some (Arg (JNum 1))).
Proof.
  cbv zeta. unfold moveToFailedArgs, moveToFinishedArgs. simpl.
  repeat split. intros -> ->. reflexivity.
Qed.

Lemma append_assoc (a b c : string) : (a +:+ b) +:+ c = a +:+ (b +:+ c).
Proof.
  induction a as [| x a IH]; [reflexivity |].
  change (String x ((a +:+ b) +:+ c) = String x (a +:+ (b +:+ c))).
  f_equal. exact IH.
Qed.

(** X15: when toKey puts the queue's prefix in front of a name, extendLock
    and moveToWaitingChildrenArgs address the same lock, although the one
    builds the key as toKey(id) + ':lock' and the other as
    toKey(id + ':lock'). *)
Theorem lock_key_agrees (queue : MinimalQueue) (prefix jobId token : string)
    (duration : Z) (opts : MoveToChildrenOpts) :
  (forall n, toKey queue n = prefix +:+ n) ->
  exists args,
    fst (run (extendLock queue jobId token duration) [])
      = [Invoked "extendLock" args] /\
    args !! 0%nat = Some (Arg (JStr (prefix +:+ jobId +:+ ":lock"))) /\
    moveToWaitingChildrenArgs queue jobId token opts !! 0%nat
      = Some (Arg (JStr (prefix +:+ jobId +:+ ":lock"))).
Proof.
  intros Hkey. eexists. split; [reflexivity |].
  unfold moveToWaitingChildrenArgs. simpl.
  rewrite !Hkey, append_assoc. split; reflexivity.
Qed.

Lemma lock_key_agrees_witness :
  exists args,
    fst (run (extendLock Example.queue "7" "tok" 30000) [])
      = [Invoked "extendLock" args] /\
    args !! 0%nat = Some (Arg (JStr "bull:q:7:lock")) /\
    moveToWaitingChildrenArgs Example.queue "7" "tok"
      {| timestamp := None; child := None |} !! 0%nat
      = Some (Arg (JStr "bull:q:7:lock")).
Proof.
  apply (lock_key_agrees Example.queue "bull:q:" "7" "tok" 30000
           {| timestamp := None; child := None |}).
  reflexivity.
Defined.

(** X16: every key a wrapper declares to its script lies under the
    queue's prefix, when toKey and the key table put that prefix in front
    of a name: the eight keys of moveToFinishedArgs, the four of
    changeDelayArgs, the five of moveToDelayedArgs, the four of
    moveToWaitingChildrenArgs and the four of retryJobArgs. *)
Theorem declared_keys_under_prefix (queue : MinimalQueue) (prefix : string)
    (job : Job) (jopts : JobsOptions) (val : value)
    (propVal target token jobId : string) (shouldRemove : bool + Z)
    (fetchNext : option bool) (now delay : Z) (ts : option Z)
    (opts : MoveToChildrenOpts) :
  (forall n, toKey queue n = prefix +:+ n) ->
  (forall n, keys queue n = prefix +:+ n) ->
  job_opts job = Some jopts ->
  Forall (under prefix)
    (take 8 (moveToFinishedArgs queue job val propVal shouldRemove target token
               fetchNext now)) /\
  Forall (under prefix) (take 4 (changeDelayArgs queue jobId delay)) /\
  Forall (under prefix) (take 5 (moveToDelayedArgs queue jobId ts)) /\
  Forall (under prefix) (take 4 (moveToWaitingChildrenArgs queue jobId token opts)) /\
  exists args, retryJobArgs queue job = Return args /\
               Forall (under prefix) (take 4 args).
Proof.
  intros HtoKey Hkeys Hopts.
  assert (Hu : forall n, under prefix (Arg (JStr (prefix +:+ n))))
    by (intros n; exists n; reflexivity).
  unfold moveToFinishedArgs, changeDelayArgs, moveToDelayedArgs,
    moveToWaitingChildrenArgs, retryJobArgs.
  rewrite Hopts. simpl. rewrite !HtoKey, !Hkeys.
  repeat split; try (eexists; split; [reflexivity |]); simpl;
    repeat constructor; apply Hu.
Qed.

Lemma declared_keys_under_prefix_witness :
  Forall (under "bull:q:")
    (take 8 (moveToFinishedArgs Example.queue Example.job (JStr "done")
               "returnvalue" (inl false) "completed" "tok" None 0)) /\
  Forall (under "bull:q:") (take 4 (changeDelayArgs Example.queue "7" 5000)) /\
  Forall (under "bull:q:") (take 5 (moveToDelayedArgs Example.queue "7" None)) /\
  Forall (under "bull:q:")
    (take 4 (moveToWaitingChildrenArgs Example.queue "7" "tok"
               {| timestamp := None; child := None |})) /\
  exists args, retryJobArgs Example.queue Example.job = Return args /\
               Forall (under "bull:q:") (take 4 args).
Proof.
  apply (declared_keys_under_prefix Example.queue "bull:q:" Example.job
           Example.no_opts); reflexivity.
Defined.

(** ** When [Queue.obliterate] ends *)

Lemma obliterate_reply_cases (queue : MinimalQueue) (o : ObliterateOpts)
    (r : reply) :
  (r = RInt (-1) /\
   snd (run (Scripts.obliterate queue o) [r])
     = Some (Throw (JErr (MkError "Cannot obliterate non-paused queue")))) \/
  (r = RInt (-2) /\
   snd (run (Scripts.obliterate queue o) [r])
     = Some (Throw (JErr (MkError "Cannot obliterate queue with active jobs")))) \/
  (keeps_looping r = reply_truthy r /\
   snd (run (Scripts.obliterate queue o) [r]) = Some (Return r)).
Proof.
  destruct r as [z | | fields id].
  - destruct (Z.eq_dec z (-1)) as [-> | H1]; [left; split; reflexivity |].
    destruct (Z.eq_dec z (-2)) as [-> | H2]; [right; left; split; reflexivity |].
    right. right. split.
    + simpl. destruct (Z.eqb_spec z (-1)), (Z.eqb_spec z (-2)); try contradiction.
      simpl. rewrite !andb_true_r. reflexivity.
    + unfold Scripts.obliterate. cbn [run snd].
      destruct (Z.ltb_spec z 0) as [Hneg | Hpos].
      * rewrite (negative_RInt z Hneg).
        destruct z as [| p | p]; try reflexivity.
        destruct p as [p | [p | p |] |]; try reflexivity; congruence.
      * rewrite (negative_RInt_nonneg z Hpos). reflexivity.
  - right. right. split; reflexivity.
  - right. right. split; reflexivity.
Qed.

Lemma obliterate_loop_ends (this : Queue.Queue)
    (opts : option Queue.ObliterateOpts) (replies : list reply) :
  match snd (Queue.obliterate_loop this opts replies) with
  | Some (Return _) =>
      exists pre c post,
        replies = pre ++ c :: post /\
        Forall (fun r => keeps_looping r = true) pre /\
        reply_truthy c = false
  | Some (Throw e) =>
      exists pre code post,
        replies = pre ++ RInt code :: post /\
        Forall (fun r => keeps_looping r = true) pre /\
        (code = -1 \/ code = -2) /\
        snd (run (Scripts.obliterate (Queue.base this) (Queue.spread_defaults opts))
               [RInt code]) = Some (Throw e)
  | None => Forall (fun r => keeps_looping r = true) replies
  end.
Proof.
  induction replies as [| r rest IH].
  - simpl. constructor.
  - cbn [Queue.obliterate_loop].
    destruct (run (Scripts.obliterate (Queue.base this) (Queue.spread_defaults opts)) [r])
      as [t o] eqn:Hrun.
    pose proof (obliterate_reply_cases (Queue.base this) (Queue.spread_defaults opts) r)
      as Hcases.
    rewrite Hrun in Hcases. simpl in Hcases.
    destruct Hcases as [[-> ->] | [[-> ->] | [Hkeep ->]]].
    + simpl. exists [], (-1), rest. repeat split; auto.
    + simpl. exists [], (-2), rest. repeat split; auto.
    + destruct (reply_truthy r) eqn:Htruthy.
      * destruct (Queue.obliterate_loop this opts rest) as [t' o'] eqn:Hloop.
        simpl in IH. simpl.
        destruct o' as [[u | e] |].
        -- destruct IH as (pre & c & post & -> & Hpre & Hc).
           exists (r :: pre), c, post. repeat split; auto.
        -- destruct IH as (pre & code & post & -> & Hpre & Hcode & He).
           exists (r :: pre), code, post. repeat split; auto.
        -- constructor; assumption.
      * simpl. exists [], r, rest. repeat split; auto.
Qed.

(** X17: Queue.obliterate returns only after a falsy cursor (0, or a nil
    reply) that follows non-zero ones, rejects only with one of the two
    errors of the wrapper, on the result -1 or -2, and is still awaiting the
    script as long as every cursor so far was non-zero: the loop has no
    bound of its own. *)
Theorem obliterate_ends_only_on_zero (this : Queue.Queue)
    (opts : option Queue.ObliterateOpts) (paused : reply) (replies : list reply) :
  let result := snd (Queue.obliterate this opts (paused :: replies)) in
  (result = Some (Return tt) ->
   exists pre c post,
     replies = pre ++ c :: post /\
     Forall (fun r => keeps_looping r = true) pre /\
     reply_truthy c = false) /\
  (forall e, result = Some (Throw e) ->
   exists pre code post,
     replies = pre ++ RInt code :: post /\
     Forall (fun r => keeps_looping r = true) pre /\
     ((code = -1 /\ e = JErr (MkError "Cannot obliterate non-paused queue")) \/
      (code = -2 /\ e = JErr (MkError "Cannot obliterate queue with active jobs")))) /\
  (result = None <-> Forall (fun r => keeps_looping r = true) replies).
Proof.
  cbv zeta.
  assert (Hob : snd (Queue.obliterate this opts (paused :: replies))
                = snd (Queue.obliterate_loop this opts replies)).
  { unfold Queue.obliterate. simpl run.
    destruct (Queue.obliterate_loop this opts replies). reflexivity. }
  rewrite Hob.
  pose proof (obliterate_loop_ends this opts replies) as Hends.
  destruct (snd (Queue.obliterate_loop this opts replies)) as [[u | e] |].
  - split; [intros _; exact Hends |]. split; [intros e He; discriminate He |].
    split; [intros H; discriminate H |].
    intros Hall. destruct Hends as (pre & c & post & -> & _ & Hc).
    apply Forall_app in Hall. destruct Hall as [_ Hall].
    inversion Hall as [| ? ? Hk _]; subst.
    apply keeps_looping_truthy in Hk. congruence.
  - split; [intros H; discriminate H |]. split.
    + intros e' He'. injection He' as <-.
      destruct Hends as (pre & code & post & -> & Hpre & [-> | ->] & He);
        exists pre; eexists; exists post;
        (split; [reflexivity |]); (split; [exact Hpre |]);
        simpl in He; injection He as <-; auto.
    + split; [intros H; discriminate H |].
      intros Hall. destruct Hends as (pre & code & post & -> & _ & Hcode & _).
      apply Forall_app in Hall. destruct Hall as [_ Hall].
      inversion Hall as [| ? ? Hk _]; subst.
      destruct Hcode as [-> | ->]; discriminate Hk.
  - split; [intros H; discriminate H |]. split; [intros e He; discriminate He |].
    split; [intros _; exact Hends | reflexivity].
Qed.

(** ** Draining a queue *)

#[local] Set Warnings "-clear-no-such-hyp".

Lemma del_lookup (ks : list string) (db : gmap string Redis.entry) (k : string) :
  fst (Redis.del ks db) !! k = if bool_decide (k ∈ ks) then None else db !! k.
Proof.
  revert db. induction ks as [| k0 ks IH]; intros db.
  - reflexivity.
  - cbn [Redis.del].
    destruct (Redis.del ks (delete k0 db)) as [db' n] eqn:Hdel.
    cbn [fst]. specialize (IH (delete k0 db)). rewrite Hdel in IH. cbn [fst] in IH.
    rewrite IH, lookup_delete.
    repeat case_bool_decide; repeat case_decide;
      try reflexivity; set_solver.
Qed.

Lemma del_count_bounds (ks : list string) (db : gmap string Redis.entry) :
  0 <= snd (Redis.del ks db) <= Z.of_nat (length ks).
Proof.
  revert db. induction ks as [| k0 ks IH]; intros db.
  - simpl. lia.
  - cbn [Redis.del]. specialize (IH (delete k0 db)).
    destruct (Redis.del ks (delete k0 db)) as [db' n]. cbn [snd] in *.
    cbn [length]. destruct (bool_decide (is_Some (db !! k0))); lia.
Qed.

(** What [drain] leaves of a store whose [wait] and [paused] keys hold
    lists (or nothing). *)
Lemma drain_lookup (this : Queue.Queue) (delayed : bool)
    (db : gmap string Redis.entry) (waiting paused : list string) (k : string) :
  Redis.lrange db (toKey (Queue.base this) "wait") = Some waiting ->
  Redis.lrange db (toKey (Queue.base this) "paused") = Some paused ->
  fst (Queue.drain this delayed db) !! k
    = if bool_decide
           (k ∈ drained_keys (toKey (Queue.base this)) delayed waiting paused)
      then None else db !! k.
Proof.
  intros Hw Hp. unfold Queue.drain, drained_keys. rewrite Hw, Hp.
  set (key := toKey (Queue.base this)).
  destruct (negb (length (map key (paused ++ waiting)) =? 0)%nat) eqn:Hlen.
  - pose proof (del_lookup (map key (paused ++ waiting))
                  (delete (key "priority")
                     (delete (key "paused")
                        (delete (key "wait")
                           (if delayed then delete (key "delayed") db else db)))) k)
      as Hdel.
    destruct (Redis.del _ _) as [db' n]. cbn [fst] in *. rewrite Hdel.
    rewrite !lookup_delete.
    destruct delayed; [rewrite lookup_delete |];
      repeat case_bool_decide; repeat case_decide;
      try reflexivity; set_solver.
  - assert (Hnil : map key (paused ++ waiting) = []).
    { destruct (map key (paused ++ waiting)); [reflexivity | discriminate Hlen]. }
    rewrite Hnil. cbn [fst]. rewrite !lookup_delete.
    destruct delayed; [rewrite lookup_delete |];
      repeat case_bool_decide; repeat case_decide;
      try reflexivity; set_solver.
Qed.

Lemma drain_containers_gone (this : Queue.Queue) (delayed : bool)
    (db : gmap string Redis.entry) (k : string) :
  k ∈ drained_keys (toKey (Queue.base this)) delayed [] [] ->
  fst (Queue.drain this delayed db) !! k = None.
Proof.
  intros Hk. unfold drained_keys in Hk. simpl in Hk.
  unfold Queue.drain.
  set (key := toKey (Queue.base this)) in *.
  assert (Hgone :
    delete (key "priority")
      (delete (key "paused")
         (delete (key "wait")
            (if delayed then delete (key "delayed") db else db))) !! k = None).
  { rewrite !lookup_delete.
    destruct delayed; [rewrite lookup_delete |];
      repeat case_decide; try reflexivity; set_solver. }
  destruct (Redis.lrange db (key "paused")) as [pausedJobs |]; [| exact Hgone].
  destruct (negb (length (map key (pausedJobs ++ _)) =? 0)%nat).
  - match goal with
    | |- context [Redis.del ?ks ?d] =>
        pose proof (del_lookup ks d k) as Hdel; destruct (Redis.del ks d)
    end.
    cbn [fst] in *. rewrite Hdel, Hgone. case_bool_decide; reflexivity.
  - exact Hgone.
Qed.

(** X18: what drain does to a store whose wait and paused keys hold lists.
    It removes the wait, paused and priority keys (and the delayed key when
    asked), and the key of every waiting and every paused job; every other
    key keeps its value.  It resolves to undefined when no job was waiting
    or paused, and otherwise to the result of the second transaction,
    [[null, n]], where n counts the job keys it deleted. *)
Theorem drain_effect (this : Queue.Queue) (delayed : bool)
    (db : gmap string Redis.entry) (waiting paused : list string) :
  Redis.lrange db (toKey (Queue.base this) "wait") = Some waiting ->
  Redis.lrange db (toKey (Queue.base this) "paused") = Some paused ->
  let removed := drained_keys (toKey (Queue.base this)) delayed waiting paused in
  (forall k, k ∈ removed -> fst (Queue.drain this delayed db) !! k = None) /\
  (forall k, k ∉ removed -> fst (Queue.drain this delayed db) !! k = db !! k) /\
  (paused ++ waiting = [] -> snd (Queue.drain this delayed db) = Return None) /\
  (paused ++ waiting <> [] ->
   exists n, snd (Queue.drain this delayed db) = Return (Some [(JNull, n)]) /\
             0 <= n <= Z.of_nat (length (paused ++ waiting))).
Proof.
  intros Hw Hp. cbv zeta. repeat split.
  - intros k Hk. rewrite (drain_lookup this delayed db waiting paused k Hw Hp).
    by rewrite bool_decide_eq_true_2.
  - intros k Hk. rewrite (drain_lookup this delayed db waiting paused k Hw Hp).
    by rewrite bool_decide_eq_false_2.
  - intros Hnone. unfold Queue.drain. rewrite Hw, Hp, Hnone. reflexivity.
  - intros Hsome. unfold Queue.drain. rewrite Hw, Hp.
    destruct (paused ++ waiting) as [| j js] eqn:Hjobs; [congruence |].
    cbn [map length Nat.eqb negb].
    match goal with
    | |- context [Redis.del ?ks ?d] =>
        pose proof (del_count_bounds ks d) as Hn; destruct (Redis.del ks d) as [d' n]
    end.
    cbn [snd] in *. exists n. split; [reflexivity |].
    cbn [length] in Hn. rewrite length_map in Hn. cbn [length]. lia.
Qed.

Lemma drain_effect_witness :
  exists n,
    snd (Queue.drain Example.plain false
           {[ "bull:q:wait" := Redis.EList ["3"; "4"];
              "bull:q:3" := Redis.EHash ∅ ]})
      = Return (Some [(JNull, n)]) /\
    0 <= n <= Z.of_nat (length ([] ++ ["3"; "4"])).
Proof.
  apply (drain_effect Example.plain false
           {[ "bull:q:wait" := Redis.EList ["3"; "4"];
              "bull:q:3" := Redis.EHash ∅ ]} ["3"; "4"] []).
  - reflexivity.
  - reflexivity.
  - discriminate.
Defined.

(** X19: draining twice is draining once: on the store a drain leaves, a
    second drain changes nothing and resolves to undefined, whatever the
    first store held. *)
Theorem drain_idempotent (this : Queue.Queue) (delayed : bool)
    (db : gmap string Redis.entry) :
  Queue.drain this delayed (fst (Queue.drain this delayed db))
    = (fst (Queue.drain this delayed db), Return None).
Proof.
  set (db1 := fst (Queue.drain this delayed db)).
  set (key := toKey (Queue.base this)).
  assert (Hgone : forall k, k ∈ drained_keys key delayed [] [] -> db1 !! k = None)
    by (intros k Hk; apply drain_containers_gone; exact Hk).
  assert (Hwait : db1 !! key "wait" = None)
    by (apply Hgone; unfold drained_keys; destruct delayed; set_solver).
  assert (Hpaused : db1 !! key "paused" = None)
    by (apply Hgone; unfold drained_keys; destruct delayed; set_solver).
  assert (Hprio : db1 !! key "priority" = None)
    by (apply Hgone; unfold drained_keys; destruct delayed; set_solver).
  unfold Queue.drain, Redis.lrange. fold key. rewrite Hwait, Hpaused.
  cbn [app map length Nat.eqb negb].
  destruct delayed.
  - assert (Hdelayed : db1 !! key "delayed" = None)
      by (apply Hgone; unfold drained_keys; set_solver).
    rewrite (delete_id db1 (key "delayed")) by exact Hdelayed.
    rewrite (delete_id db1 (key "wait")) by exact Hwait.
    rewrite (delete_id db1 (key "paused")) by exact Hpaused.
    rewrite (delete_id db1 (key "priority")) by exact Hprio.
    reflexivity.
  - rewrite (delete_id db1 (key "wait")) by exact Hwait.
    rewrite (delete_id db1 (key "paused")) by exact Hpaused.
    rewrite (delete_id db1 (key "priority")) by exact Hprio.
    reflexivity.
Qed.

(** X20: drain(true) forgets the delayed jobs without deleting them.  With
    an injective toKey, the delayed set is gone afterwards, but the hash of
    a delayed job that is neither waiting nor paused (and is not named like
    a container) is still in the store. *)
Theorem drain_delayed_keeps_job_hashes (this : Queue.Queue)
    (db : gmap string Redis.entry) (waiting paused : list string)
    (delayedJobs : list (Z * string)) (score : Z) (jobId : string)
    (job : Redis.entry) :
  (forall a b, toKey (Queue.base this) a = toKey (Queue.base this) b -> a = b) ->
  Redis.lrange db (toKey (Queue.base this) "wait") = Some waiting ->
  Redis.lrange db (toKey (Queue.base this) "paused") = Some paused ->
  db !! toKey (Queue.base this) "delayed" = Some (Redis.EZSet delayedJobs) ->
  (score, jobId) ∈ delayedJobs ->
  db !! toKey (Queue.base this) jobId = Some job ->
  jobId ∉ paused ++ waiting ->
  jobId ∉ ["delayed"; "wait"; "paused"; "priority"] ->
  fst (Queue.drain this true db) !! toKey (Queue.base this) "delayed" = None /\
  fst (Queue.drain this true db) !! toKey (Queue.base this) jobId = Some job.
Proof.
  intros Hinj Hw Hp Hz Hin Hjob Hnot Hname. split.
  - rewrite (drain_lookup this true db waiting paused _ Hw Hp).
    rewrite bool_decide_eq_true_2; [reflexivity |].
    unfold drained_keys. set_solver.
  - rewrite (drain_lookup this true db waiting paused _ Hw Hp).
    rewrite bool_decide_eq_false_2; [exact Hjob |].
    unfold drained_keys. intros Hk.
    rewrite !elem_of_app, !elem_of_cons, elem_of_nil in Hk.
    rewrite !elem_of_cons, elem_of_nil in Hname.
    destruct Hk as [[Hk | []] | [[Hk | [Hk | [Hk | []]]] | Hk]];
      try (apply Hinj in Hk; tauto).
    apply list_elem_of_fmap in Hk. destruct Hk as (j & Hj & Hjin).
    apply Hinj in Hj. subst j. exact (Hnot Hjin).
Qed.

Lemma drain_delayed_keeps_job_hashes_witness :
  let db : gmap string Redis.entry :=
    {[ "bull:q:delayed" := Redis.EZSet [(4096000, "9")];
       "bull:q:9" := Redis.EHash {[ "name" := "mail" ]};
       "bull:q:wait" := Redis.EList ["3"];
       "bull:q:3" := Redis.EHash ∅ ]} in
  fst (Queue.drain Example.plain true db) !! "bull:q:delayed" = None /\
  fst (Queue.drain Example.plain true db) !! "bull:q:9"
    = Some (Redis.EHash {[ "name" := "mail" ]}).
Proof.
  apply (drain_delayed_keeps_job_hashes Example.plain _ ["3"] []
           [(4096000, "9")] 4096000 "9" (Redis.EHash {[ "name" := "mail" ]})).
  - intros a b H. unfold Example.plain, Example.queue, Example.key in H.
    simpl in H. injection H as H. exact H.
  - reflexivity.
  - reflexivity.
  - reflexivity.
  - set_solver.
  - reflexivity.
  - set_solver.
  - set_solver.
Defined.

(** X21: drain leaves the pause flag alone: when the meta key is none of
    the keys it deletes, isPaused answers after the drain what it answered
    before. *)
Theorem drain_preserves_isPaused (this : Queue.Queue) (delayed : bool)
    (db : gmap string Redis.entry) (waiting paused : list string) :
  Redis.lrange db (toKey (Queue.base this) "wait") = Some waiting ->
  Redis.lrange db (toKey (Queue.base this) "paused") = Some paused ->
  keys (Queue.base this) "meta"
    ∉ drained_keys (toKey (Queue.base this)) delayed waiting paused ->
  Queue.isPaused this (fst (Queue.drain this delayed db)) = Queue.isPaused this db.
Proof.
  intros Hw Hp Hmeta. unfold Queue.isPaused, Redis.hexists.
  rewrite (drain_lookup this delayed db waiting paused _ Hw Hp).
  rewrite bool_decide_eq_false_2 by exact Hmeta. reflexivity.
Qed.

Lemma drain_preserves_isPaused_witness :
  let db : gmap string Redis.entry :=
    {[ "bull:q:meta" := Redis.EHash {[ "paused" := "1" ]};
       "bull:q:paused" := Redis.EList ["3"];
       "bull:q:3" := Redis.EHash ∅ ]} in
  Queue.isPaused Example.plain (fst (Queue.drain Example.plain false db))
    = Queue.isPaused Example.plain db.
Proof.
  apply (drain_preserves_isPaused Example.plain false _ [] ["3"]).
  - reflexivity.
  - reflexivity.
  - vm_compute. set_solver.
Defined.
